(** * Temperature sampling over ADC + DMA on the RP2040 (display_oled.c)

    A shallow embedding of [src/display_oled/display_oled.c]:

    - [F32]: IEEE-754 binary32 arithmetic, the C type [float] on the
      target, as the instance [prec = 24], [emax = 128] of the
      executable specification [SpecFloat] of the standard library;
    - [convert_to_celsius], [average_temperature]: the conversion
      function and the averaging loop of [main];
    - [Machine]: the main loop as a transition system whose actions are
      a statement of [main], a firing of the repeating timer (which
      runs [alarm_callback]) and a transfer of the DMA engine.  The
      calls into the Pico SDK and the accesses to [adc_buffer] are
      recorded in a trace.

    Definitions come first, then the facts about binary32 rounding the
    proofs rest on, then the properties of the program. *)

From Stdlib Require Import String Ascii ZArith QArith Qabs Qminmax List Lia Bool.
From Stdlib Require Import Floats.SpecFloat.
Import ListNotations.
Local Open Scope Z_scope.

(** ** Binary32 arithmetic *)

Module F32.

Definition prec : Z := 24.
Definition emax : Z := 128.
Definition emin : Z := -149.

Definition float : Type := spec_float.

Definition zero : float := S754_zero false.
Definition add : float -> float -> float := SFadd prec emax.
Definition sub : float -> float -> float := SFsub prec emax.
Definition mul : float -> float -> float := SFmul prec emax.
Definition div : float -> float -> float := SFdiv prec emax.
Definition ltb : float -> float -> bool := SFltb.

(** Conversion of a C integer to [float]; exact below [2^24]. *)
Definition of_Z (n : Z) : float := binary_normalize prec emax n 0 false.

(** A decimal literal [n/d] with the suffix [f]: the binary32 number
    nearest to the quotient.  Numerator and denominator are below
    [2^24], so the correctly rounded division yields it. *)
Definition of_decimal (n d : Z) : float := div (of_Z n) (of_Z d).

Definition is_finite (x : float) : bool :=
  match x with
  | S754_zero _ | S754_finite _ _ _ => true
  | _ => false
  end.

(** A finite number in the canonical representation of the format. *)
Definition valid (x : float) : bool := valid_binary prec emax x && is_finite x.

(** The number a finite float denotes. *)
Definition to_Q (x : float) : Q :=
  match x with
  | S754_finite s m e =>
      let n := cond_Zopp s (Z.pos m) in
      match e with
      | Z.neg p => n # (2 ^ p)
      | _ => inject_Z (n * 2 ^ e)
      end
  | _ => 0%Q
  end.

(** The same number counted in units of [2^emin], the spacing of the
    smallest binary32 numbers: every finite binary32 number is an
    integer multiple of it. *)
Definition sval (x : float) : Z :=
  match x with
  | S754_finite s m e => cond_Zopp s (Z.pos m * 2 ^ (e - emin))
  | _ => 0
  end.

Definition mag (x : float) : Z :=
  match x with
  | S754_finite _ m e => Z.pos m * 2 ^ (e - emin)
  | _ => 0
  end.

Definition sign_of (x : float) : bool :=
  match x with
  | S754_finite s _ _ | S754_zero s | S754_infinity s => s
  | S754_nan => false
  end.

(** Finite, with an exponent in the range of the format. *)
Definition wf (x : float) : bool :=
  match x with
  | S754_zero _ => true
  | S754_finite _ m e => (emin <=? e) && (e <=? emax - prec)
  | _ => false
  end.

(** [2^149], the denominator of [sval]. *)
Definition unit149 : positive := 2 ^ 149.

End F32.

(** ** The conversion function (lines 25-29) *)

Definition NUM_SAMPLES : Z := 100.
Definition UPDATE_INTERVAL_MS : Z := 500.

(** The literals [3.3f], [27.0f], [0.706f] and [0.001721f]. *)
Definition lit_3_3 : F32.float := F32.of_decimal 33 10.
Definition lit_27_0 : F32.float := F32.of_decimal 270 10.
Definition lit_0_706 : F32.float := F32.of_decimal 706 1000.
Definition lit_0_001721 : F32.float := F32.of_decimal 1721 1000000.

(** [const float conversion_factor = 3.3f / (1 << 12);] where
    [(1 << 12)] is an [int], converted to [float] for the quotient. *)
Definition conversion_factor : F32.float :=
  F32.div lit_3_3 (F32.of_Z (Z.shiftl 1 12)).

(** [float voltage = raw * conversion_factor;] where [raw], a
    [uint16_t], is promoted to [int] and converted to [float]. *)
Definition voltage (raw : Z) : F32.float :=
  F32.mul (F32.of_Z raw) conversion_factor.

Definition convert_to_celsius (raw : Z) : F32.float :=
  F32.sub lit_27_0 (F32.div (F32.sub (voltage raw) lit_0_706) lit_0_001721).

(** The formula of the specification, [27.0 - ((raw * (3.3 / 4096)) -
    0.706) / 0.001721], evaluated in binary32. *)
Definition convert_formula (raw : Z) : F32.float :=
  F32.sub (F32.of_decimal 270 10)
    (F32.div
       (F32.sub (F32.mul (F32.of_Z raw) (F32.div (F32.of_decimal 33 10) (F32.of_Z 4096)))
                (F32.of_decimal 706 1000))
       (F32.of_decimal 1721 1000000)).

(** The same formula over the rationals. *)
Definition convert_exact (raw : Z) : Q :=
  (27 - (inject_Z raw * ((33 # 10) / 4096) - (706 # 1000)) / (1721 # 1000000))%Q.

(** Values of the type [uint16_t], and those a 12-bit conversion
    result can take. *)
Definition is_uint16 (r : Z) : bool := (0 <=? r) && (r <? 65536).
Definition is_nominal (r : Z) : bool := (0 <=? r) && (r <? 4096).

(** ** The averaging loop (lines 133-137) *)

(** [for (int i = 0; i < NUM_SAMPLES; i++) sum += convert_to_celsius(adc_buffer[i]);]
    with [n] the number of iterations left. *)
Fixpoint sum_loop (adc_buffer : list Z) (n : nat) (i : Z) (sum : F32.float) : F32.float :=
  match n with
  | O => sum
  | S n' =>
      sum_loop adc_buffer n' (i + 1)
        (F32.add sum (convert_to_celsius (nth (Z.to_nat i) adc_buffer 0)))
  end.

(** [sum / NUM_SAMPLES]: the [int] is converted to [float]. *)
Definition average_temperature (adc_buffer : list Z) : F32.float :=
  let sum := sum_loop adc_buffer (Z.to_nat NUM_SAMPLES) 0 F32.zero in
  F32.div sum (F32.of_Z NUM_SAMPLES).

(** The fold of the specification: the converted samples are summed
    from the left and the sum is divided by their number. *)
Definition average_spec (samples : list Z) : F32.float :=
  F32.div (fold_left F32.add (map convert_to_celsius samples) F32.zero)
          (F32.of_Z (Z.of_nat (List.length samples))).

(** The content of [adc_buffer]: [NUM_SAMPLES] values of type [uint16_t]. *)
Definition valid_buffer (buf : list Z) : bool :=
  (List.length buf =? 100)%nat && forallb is_uint16 buf.

Definition nominal_buffer (buf : list Z) : bool :=
  (List.length buf =? 100)%nat && forallb is_nominal buf.

(** A buffer that alternates two values, fifty times each. *)
Definition alternate (r1 r2 : Z) : list Z := concat (repeat [r1; r2] 50).

(** The temperatures of the samples as rationals, their mean, minimum
    and maximum. *)
Definition temperatures (samples : list Z) : list Q :=
  map (fun r => F32.to_Q (convert_to_celsius r)) samples.

Definition sumQ (l : list Q) : Q := fold_right Qplus 0%Q l.

Definition mean_exact (samples : list Z) : Q :=
  (sumQ (temperatures samples) / inject_Z (Z.of_nat (List.length samples)))%Q.

Definition Qlist_min (l : list Q) : Q :=
  match l with
  | [] => 0%Q
  | x :: l' => fold_left Qmin l' x
  end.

Definition Qlist_max (l : list Q) : Q :=
  match l with
  | [] => 0%Q
  | x :: l' => fold_left Qmax l' x
  end.

(** ** Auxiliary definitions of the proofs *)

(** Bounds on the magnitude of a converted sample, in units of
    [2^emin]: 30243 degrees over [uint16_t], 1480 over 12 bits. *)
Definition bound16 : Z := 30243 * 2 ^ 149.
Definition bound12 : Z := 1480 * 2 ^ 149.

(** What is checked of the conversion [c] of [r], given the conversion
    [c'] of [r + 1]. *)
Definition sample_ok (r : Z) (c c' : F32.float) : bool :=
  F32.valid c && F32.ltb c' c && (F32.sval c' <? F32.sval c)
  && (Z.abs (F32.sval c) <=? bound16)
  && Qle_bool (Qabs (F32.to_Q c - convert_exact r)) (1 # 400)
  && ((4096 <=? r)
      || ((Z.abs (F32.sval c) <=? bound12)
          && Qle_bool (Qabs (F32.to_Q c - convert_exact r)) (1 # 5000))).

(** The check of [n] consecutive inputs from [r] on, each conversion
    computed once. *)
Fixpoint table_ok (n : nat) (r : Z) (c : F32.float) : bool :=
  match n with
  | O => true
  | S n' =>
      let c' := convert_to_celsius (r + 1) in
      sample_ok r c c' && table_ok n' (r + 1) c'
  end.

(** The exact value [X / N] lies in [[q, q + 1)], and the round and
    sticky bits [r], [s] locate it there: on [q], below, at or above
    the middle. *)
Definition loc_inv (X N q : Z) (r s : bool) : Prop :=
  exists rho, X = q * N + rho /\ 0 <= rho < N /\
    match r, s with
    | false, false => rho = 0
    | false, true => 2 * rho < N
    | true, false => 2 * rho = N
    | true, true => N <= 2 * rho
    end.

Definition loc_ok (X N q : Z) (l : location) : Prop :=
  match l with
  | loc_Exact => loc_inv X N q false false
  | loc_Inexact Lt => loc_inv X N q false true
  | loc_Inexact Eq => loc_inv X N q true false
  | loc_Inexact Gt => loc_inv X N q true true
  end.

Definition sumZ (cs : list F32.float) : Z :=
  fold_right (fun c acc => F32.sval c + acc) 0 cs.

Definition small (C : Z) (c : F32.float) : Prop :=
  F32.wf c = true /\ Z.abs (F32.sval c) <= C.

(** What the check of the table establishes for the input [r]. *)
Record sample_facts_of (r : Z) : Prop := {
  sf_valid : F32.valid (convert_to_celsius r) = true;
  sf_ltb : F32.ltb (convert_to_celsius (r + 1)) (convert_to_celsius r) = true;
  sf_lt : F32.sval (convert_to_celsius (r + 1)) < F32.sval (convert_to_celsius r);
  sf_bound : Z.abs (F32.sval (convert_to_celsius r)) <= bound16;
  sf_close : (Qabs (F32.to_Q (convert_to_celsius r) - convert_exact r) <= 1 # 400)%Q;
  sf_nominal : r < 4096 ->
     Z.abs (F32.sval (convert_to_celsius r)) <= bound12 /\
     (Qabs (F32.to_Q (convert_to_celsius r) - convert_exact r) <= 1 # 5000)%Q
}.
(** ** The main loop as a transition system *)

Module Machine.

(** *** Arguments of the SDK calls *)

Inductive dma_size := DMA_SIZE_8 | DMA_SIZE_16 | DMA_SIZE_32.
Inductive dreq_source := DREQ_ADC | DREQ_OTHER (n : Z).
Inductive address := ADDR_adc_buffer | ADDR_adc_hw_fifo.

Record dma_channel_config := {
    transfer_data_size : dma_size;
    read_increment : bool;
    write_increment : bool;
    dreq : dreq_source
  }.

Definition channel_config_set_transfer_data_size (c : dma_channel_config) (sz : dma_size) :=
    {| transfer_data_size := sz; read_increment := read_increment c;
       write_increment := write_increment c; dreq := dreq c |}.
Definition channel_config_set_read_increment (c : dma_channel_config) (incr : bool) :=
    {| transfer_data_size := transfer_data_size c; read_increment := incr;
       write_increment := write_increment c; dreq := dreq c |}.
Definition channel_config_set_write_increment (c : dma_channel_config) (incr : bool) :=
    {| transfer_data_size := transfer_data_size c; read_increment := read_increment c;
       write_increment := incr; dreq := dreq c |}.
Definition channel_config_set_dreq (c : dma_channel_config) (d : dreq_source) :=
    {| transfer_data_size := transfer_data_size c; read_increment := read_increment c;
       write_increment := write_increment c; dreq := d |}.

(** The text handed to [ssd1306_draw_string]: a string literal, or
      the buffer [temp_str] that [snprintf] filled from a format and a
      temperature. *)
Inductive text :=
| Literal (s : string)
| Formatted (fmt : string) (temp : F32.float).

(** *** Observable events: calls into the SDK and accesses to
      [adc_buffer] *)

Inductive event :=
| E_stdio_init_all
| E_sleep_ms (ms : Z)
| E_i2c_init
| E_gpio_set_function (pin : Z)
| E_gpio_pull_up (pin : Z)
| E_ssd1306_init
| E_calculate_render_area_buffer_length
| E_memset_ssd
| E_render_on_display
| E_adc_init
| E_adc_set_temp_sensor_enabled (enable : bool)
| E_adc_select_input (input : Z)
| E_dma_claim_unused_channel (required : bool)
| E_dma_channel_get_default_config (chan : Z)
| E_add_repeating_timer_ms (delay_ms : Z)
| E_wfi
| E_adc_fifo_drain
| E_adc_run (run : bool)
| E_adc_fifo_setup (en dreq_en : bool) (dreq_thresh : Z) (err_in_fifo byte_shift : bool)
| E_dma_channel_configure (chan : Z) (c : dma_channel_config)
      (write_addr read_addr : address) (transfer_count : Z) (trigger : bool)
| E_dma_channel_wait_for_finish_blocking (chan : Z)
| E_dma_write (index : Z) (value : Z)
| E_read_adc_buffer (index : Z)
| E_printf (fmt : string) (avg_temp : F32.float)
| E_ssd1306_draw_string (x y : Z) (t : text).

(** *** Control points of the loop of [main] (lines 103-142) *)

Inductive label :=
| L_wait            (* 105: while (!timer_fired) __wfi(); *)
| L_clear           (* 108: timer_fired = false; *)
| L_drain           (* 111: adc_fifo_drain(); *)
| L_stop            (* 112: adc_run(false); *)
| L_fifo_setup      (* 115: adc_fifo_setup(true, true, 1, false, false); *)
| L_run             (* 116: adc_run(true); *)
| L_dma_configure   (* 119: dma_channel_configure(...); *)
| L_dma_wait        (* 129: dma_channel_wait_for_finish_blocking(dma_chan); *)
| L_stop2           (* 130: adc_run(false); *)
| L_average         (* 133-137: the averaging loop *)
| L_printf          (* 140: printf(...); *)
| L_display.        (* 141: display_temperature(avg_temp, ssd, &frame_area); *)

(** *** States *)

Record state := {
    (* globals *)
    timer_fired : bool;
    adc_buffer : list Z;
    (* locals of main *)
    pc : label;
    dma_chan : Z;
    cfg : dma_channel_config;
    avg_temp : F32.float;
    (* peripherals *)
    timer_active : bool;         (* the repeating timer is armed *)
    adc_running : bool;          (* the ADC is free-running *)
    dma_config : dma_channel_config;  (* control register of the channel *)
    dma_remaining : Z;           (* transfers left in the burst *)
    dma_write_index : Z;         (* write address, as an index into adc_buffer *)
    (* calls and buffer accesses so far, the latest first *)
    trace : list event
  }.

Definition set_timer_fired (b : bool) (st : state) : state :=
    {| timer_fired := b; adc_buffer := adc_buffer st; pc := pc st;
       dma_chan := dma_chan st; cfg := cfg st; avg_temp := avg_temp st;
       timer_active := timer_active st; adc_running := adc_running st;
       dma_config := dma_config st; dma_remaining := dma_remaining st;
       dma_write_index := dma_write_index st; trace := trace st |}.

Definition set_timer_active (b : bool) (st : state) : state :=
    {| timer_fired := timer_fired st; adc_buffer := adc_buffer st; pc := pc st;
       dma_chan := dma_chan st; cfg := cfg st; avg_temp := avg_temp st;
       timer_active := b; adc_running := adc_running st;
       dma_config := dma_config st; dma_remaining := dma_remaining st;
       dma_write_index := dma_write_index st; trace := trace st |}.

Definition set_adc_buffer (buf : list Z) (st : state) : state :=
    {| timer_fired := timer_fired st; adc_buffer := buf; pc := pc st;
       dma_chan := dma_chan st; cfg := cfg st; avg_temp := avg_temp st;
       timer_active := timer_active st; adc_running := adc_running st;
       dma_config := dma_config st; dma_remaining := dma_remaining st;
       dma_write_index := dma_write_index st; trace := trace st |}.

Definition set_avg_temp (t : F32.float) (st : state) : state :=
    {| timer_fired := timer_fired st; adc_buffer := adc_buffer st; pc := pc st;
       dma_chan := dma_chan st; cfg := cfg st; avg_temp := t;
       timer_active := timer_active st; adc_running := adc_running st;
       dma_config := dma_config st; dma_remaining := dma_remaining st;
       dma_write_index := dma_write_index st; trace := trace st |}.

Definition set_adc_running (b : bool) (st : state) : state :=
    {| timer_fired := timer_fired st; adc_buffer := adc_buffer st; pc := pc st;
       dma_chan := dma_chan st; cfg := cfg st; avg_temp := avg_temp st;
       timer_active := timer_active st; adc_running := b;
       dma_config := dma_config st; dma_remaining := dma_remaining st;
       dma_write_index := dma_write_index st; trace := trace st |}.

Definition set_dma (c : dma_channel_config) (remaining index : Z) (st : state) : state :=
    {| timer_fired := timer_fired st; adc_buffer := adc_buffer st; pc := pc st;
       dma_chan := dma_chan st; cfg := cfg st; avg_temp := avg_temp st;
       timer_active := timer_active st; adc_running := adc_running st;
       dma_config := c; dma_remaining := remaining;
       dma_write_index := index; trace := trace st |}.

(** Record the events [es] (in the order they happen) and move to [l]. *)
Definition goto (l : label) (es : list event) (st : state) : state :=
    {| timer_fired := timer_fired st; adc_buffer := adc_buffer st; pc := l;
       dma_chan := dma_chan st; cfg := cfg st; avg_temp := avg_temp st;
       timer_active := timer_active st; adc_running := adc_running st;
       dma_config := dma_config st; dma_remaining := dma_remaining st;
       dma_write_index := dma_write_index st; trace := rev es ++ trace st |}.

(** The events in the order they happened. *)
Definition history (st : state) : list event := rev (trace st).

(** *** The timer callback (lines 49-53) *)

Definition alarm_callback (st : state) : bool * state :=
    (true, set_timer_fired true st).

(** *** The format of line 140

      A string of Rocq has no escape sequences: the line feed that ends
      the format is the character of code 10, appended to the text. *)

Definition printf_format : string :=
    String.append "Temperatura média: %.2f °C" (String "010"%char EmptyString).

(** *** [display_temperature] (lines 32-46), as the calls it makes *)

Definition display_temperature (temp : F32.float) : list event :=
    [ E_memset_ssd;
      E_ssd1306_draw_string 5 0 (Literal "SENSOR DE TEMP");
      E_ssd1306_draw_string 5 16 (Formatted "Temp: %.2f C" temp);
      E_ssd1306_draw_string 5 32 (Literal "RP2040 INTERNO");
      E_render_on_display ].

(** *** Initialisation (lines 57-100)

      Straight-line code; the timer is armed by its last call, so no
      callback runs before the loop is entered.  [chan] is the channel
      [dma_claim_unused_channel] returns and [default_config] the
      configuration [dma_channel_get_default_config] returns for it;
      [buffer0] is the initial content of [adc_buffer]. *)

Definition I2C_SDA : Z := 14.
Definition I2C_SCL : Z := 15.

Definition main_cfg (default_config : dma_channel_config) : dma_channel_config :=
    let cfg := default_config in
    let cfg := channel_config_set_transfer_data_size cfg DMA_SIZE_16 in
    let cfg := channel_config_set_read_increment cfg false in
    let cfg := channel_config_set_write_increment cfg true in
    channel_config_set_dreq cfg DREQ_ADC.

Definition init_events (chan : Z) : list event :=
    [ E_stdio_init_all; E_sleep_ms 2000;
      E_i2c_init;
      E_gpio_set_function I2C_SDA; E_gpio_set_function I2C_SCL;
      E_gpio_pull_up I2C_SDA; E_gpio_pull_up I2C_SCL;
      E_ssd1306_init;
      E_calculate_render_area_buffer_length; E_memset_ssd; E_render_on_display;
      E_adc_init; E_adc_set_temp_sensor_enabled true; E_adc_select_input 4;
      E_dma_claim_unused_channel true; E_dma_channel_get_default_config chan;
      E_add_repeating_timer_ms UPDATE_INTERVAL_MS ].

Definition main_init (chan : Z) (default_config : dma_channel_config)
      (buffer0 : list Z) : state :=
    {| timer_fired := false; adc_buffer := buffer0; pc := L_wait;
       dma_chan := chan; cfg := main_cfg default_config; avg_temp := F32.zero;
       timer_active := true; adc_running := false;
       dma_config := default_config; dma_remaining := 0; dma_write_index := 0;
       trace := rev (init_events chan) |}.

(** *** One statement of the loop *)

Definition read_events : list event :=
    map (fun i => E_read_adc_buffer (Z.of_nat i)) (seq 0 (Z.to_nat NUM_SAMPLES)).

Definition main_step (st : state) : state :=
    match pc st with
    | L_wait =>
        if timer_fired st then goto L_clear [] st
        else goto L_wait [E_wfi] st
    | L_clear => goto L_drain [] (set_timer_fired false st)
    | L_drain => goto L_stop [E_adc_fifo_drain] st
    | L_stop => goto L_fifo_setup [E_adc_run false] (set_adc_running false st)
    | L_fifo_setup => goto L_run [E_adc_fifo_setup true true 1 false false] st
    | L_run => goto L_dma_configure [E_adc_run true] (set_adc_running true st)
    | L_dma_configure =>
        goto L_dma_wait
          [E_dma_channel_configure (dma_chan st) (cfg st)
             ADDR_adc_buffer ADDR_adc_hw_fifo NUM_SAMPLES true]
          (set_dma (cfg st) NUM_SAMPLES 0 st)
    | L_dma_wait =>
        if dma_remaining st =? 0
        then goto L_stop2 [E_dma_channel_wait_for_finish_blocking (dma_chan st)] st
        else st
    | L_stop2 => goto L_average [E_adc_run false] (set_adc_running false st)
    | L_average =>
        goto L_printf read_events
          (set_avg_temp (average_temperature (adc_buffer st)) st)
    | L_printf =>
        goto L_display [E_printf printf_format (avg_temp st)] st
    | L_display => goto L_wait (display_temperature (avg_temp st)) st
    end.

(** *** The peripherals *)

(** The repeating timer fires: the callback runs, and the timer stays
      armed if it returns [true]. *)
Definition tick (st : state) : state :=
    if timer_active st then
      let (again, st') := alarm_callback st in set_timer_active again st'
    else st.

Definition dma_size_bits (sz : dma_size) : Z :=
    match sz with DMA_SIZE_8 => 8 | DMA_SIZE_16 => 16 | DMA_SIZE_32 => 32 end.

Fixpoint write_at (i : nat) (v : Z) (l : list Z) : list Z :=
    match l, i with
    | [], _ => []
    | _ :: l', O => v :: l'
    | x :: l', S i' => x :: write_at i' v l'
    end.

(** The ADC signals a conversion result [sample]; a busy channel
      paced by [DREQ_ADC] moves it from the FIFO register to the write
      address, which advances if the channel increments it. *)
Definition dma_transfer (sample : Z) (st : state) : state :=
    if adc_running st && (0 <? dma_remaining st) then
      let v := Z.land sample (Z.ones (dma_size_bits (transfer_data_size (dma_config st)))) in
      let i := dma_write_index st in
      let st1 := set_adc_buffer (write_at (Z.to_nat i) v (adc_buffer st)) st in
      let st2 := set_dma (dma_config st)
                   (dma_remaining st - 1)
                   (if write_increment (dma_config st) then i + 1 else i) st1 in
      goto (pc st) [E_dma_write i v] st2
    else st.

(** *** Interleavings *)

Inductive action :=
| A_main                 (* main executes its next statement *)
| A_tick                 (* the repeating timer fires *)
| A_dma (sample : Z).    (* the ADC delivers a sample to the DMA *)

Definition step (a : action) (st : state) : state :=
    match a with
    | A_main => main_step st
    | A_tick => tick st
    | A_dma sample => dma_transfer sample st
    end.

Definition run (sched : list action) (st : state) : state :=
    fold_left (fun s a => step a s) sched st.

Definition is_tick (a : action) : bool :=
    match a with A_tick => true | _ => false end.

(** *** Observations on traces *)

Definition is_drain (e : event) : bool :=
    match e with E_adc_fifo_drain => true | _ => false end.

(** The number of acquisition cycles begun. *)
Definition samplings (st : state) : nat :=
    List.length (filter is_drain (trace st)).

(** The calls one acquisition cycle makes, in order, once it has left
      the wait for the timer. *)
Definition cycle_events (chan : Z) (c : dma_channel_config) : list event :=
    [ E_adc_fifo_drain;
      E_adc_run false;
      E_adc_fifo_setup true true 1 false false;
      E_adc_run true;
      E_dma_channel_configure chan c ADDR_adc_buffer ADDR_adc_hw_fifo 100 true;
      E_dma_channel_wait_for_finish_blocking chan;
      E_adc_run false ]
    ++ read_events.

(** The events of [main] between the wait for the timer and the
      output: neither idle waits, nor DMA stores, nor printing. *)
Definition is_acquisition (e : event) : bool :=
    match e with
    | E_adc_fifo_drain | E_adc_run _ | E_adc_fifo_setup _ _ _ _ _
    | E_dma_channel_configure _ _ _ _ _ _
    | E_dma_channel_wait_for_finish_blocking _ | E_read_adc_buffer _ => true
    | _ => false
    end.

(** *** Auxiliary definitions of the proofs *)

(** How many events of [cycle_events] the current cycle has produced
    when [main] is at a control point. *)
Definition progress (l : label) : nat :=
  match l with
  | L_wait | L_clear | L_drain => 0
  | L_stop => 1
  | L_fifo_setup => 2
  | L_run => 3
  | L_dma_configure => 4
  | L_dma_wait => 5
  | L_stop2 => 6
  | L_average => 7
  | L_printf | L_display => 107
  end.

Definition is_timer_registration (e : event) : bool :=
  match e with E_add_repeating_timer_ms _ => true | _ => false end.

(** The arguments the program gives to [adc_fifo_setup] and
    [dma_channel_configure]. *)
Definition event_ok (chan : Z) (c : dma_channel_config) (e : event) : Prop :=
  match e with
  | E_adc_fifo_setup en dreq_en thresh err shift =>
      en = true /\ dreq_en = true /\ thresh = 1 /\ err = false /\ shift = false
  | E_dma_channel_configure ch c' w r n t =>
      ch = chan /\ c' = c /\ w = ADDR_adc_buffer /\ r = ADDR_adc_hw_fifo /\ n = 100 /\ t = true
  | _ => True
  end.

(** What holds in every state the program reaches. *)
Record invariant (chan : Z) (dflt : dma_channel_config) (len : nat) (st : state) : Prop := {
  inv_chan : dma_chan st = chan;
  inv_cfg : cfg st = main_cfg dflt;
  inv_timer : timer_active st = true;
  inv_len : List.length (adc_buffer st) = len;
  inv_dma_nonneg : 0 <= dma_remaining st;
  inv_dma_busy : 0 < dma_remaining st -> pc st = L_dma_wait;
  inv_adc : pc st = L_dma_configure \/ pc st = L_dma_wait -> adc_running st = true;
  inv_dma_cfg : pc st = L_dma_wait -> dma_config st = main_cfg dflt;
  inv_index : pc st = L_dma_wait -> dma_write_index st = 100 - dma_remaining st;
  inv_order : exists n, filter is_acquisition (history st)
                = concat (repeat (cycle_events chan (main_cfg dflt)) n)
                  ++ firstn (progress (pc st)) (cycle_events chan (main_cfg dflt));
  inv_registered : filter is_timer_registration (history st) = [E_add_repeating_timer_ms 500];
  inv_events : Forall (event_ok chan (main_cfg dflt)) (trace st)
}.

(** The flag is down and [main] is not about to start a cycle. *)
Definition quiet (st : state) : Prop :=
  timer_fired st = false /\ pc st <> L_clear /\ pc st <> L_drain.

Definition tick_free (sched : list action) : bool :=
  forallb (fun a => negb (is_tick a)) sched.

(** A default configuration, for examples. *)
Definition some_default_config : dma_channel_config :=
  {| transfer_data_size := DMA_SIZE_32; read_increment := true;
     write_increment := false; dreq := DREQ_OTHER 63 |}.

(** A 16-bit transfer keeps the low 16 bits. *)
Definition mask16 (v : Z) : Z := Z.land v (Z.ones 16).

(** *** Further observations on states and traces *)

(** The control points between [adc_run(true)] (line 116) and the
    [adc_run(false)] of line 130. *)
Definition in_burst_window (l : label) : bool :=
  match l with
  | L_dma_configure | L_dma_wait | L_stop2 => true
  | _ => false
  end.

(** What one cycle prints and draws for the value [v] (lines 140 and
    37-42). *)
Definition shown (v : F32.float) : list event :=
  [ E_printf printf_format v;
    E_ssd1306_draw_string 5 0 (Literal "SENSOR DE TEMP");
    E_ssd1306_draw_string 5 16 (Formatted "Temp: %.2f C" v);
    E_ssd1306_draw_string 5 32 (Literal "RP2040 INTERNO") ].

Definition is_output (e : event) : bool :=
  match e with
  | E_printf _ _ | E_ssd1306_draw_string _ _ _ => true
  | _ => false
  end.

(** Between line 140 and line 141 the value is printed and not yet
    drawn. *)
Definition pending_output (st : state) : list event :=
  match pc st with
  | L_display => [E_printf printf_format (avg_temp st)]
  | _ => []
  end.

Definition is_average (v : F32.float) : Prop :=
  exists buf, valid_buffer buf = true /\ v = average_temperature buf.

(** A store of the DMA stays inside [adc_buffer] and is a 16-bit
    value. *)
Definition dma_write_ok (e : event) : Prop :=
  match e with
  | E_dma_write i v => 0 <= i < 100 /\ is_uint16 v = true
  | _ => True
  end.

Record output_invariant (st : state) : Prop := {
  oi_valid : valid_buffer (adc_buffer st) = true;
  oi_remaining : dma_remaining st <= 100;
  oi_avg : pc st = L_printf \/ pc st = L_display ->
           avg_temp st = average_temperature (adc_buffer st);
  oi_adc : adc_running st = in_burst_window (pc st);
  oi_writes : Forall dma_write_ok (trace st);
  oi_outputs : exists vs, Forall is_average vs
                 /\ filter is_output (history st) = flat_map shown vs ++ pending_output st
}.

(** The timer firings of a schedule. *)
Definition ticks (sched : list action) : nat := List.length (filter is_tick sched).

(** The cycles [main] may still begin without a further firing. *)
Definition credit (st : state) : nat :=
  match pc st with
  | L_clear => 1
  | L_drain => 1 + (if timer_fired st then 1 else 0)
  | _ => if timer_fired st then 1 else 0
  end.

(** The stores of a burst that begins at index [i]. *)
Fixpoint dma_write_events (i : Z) (samples : list Z) : list event :=
  match samples with
  | [] => []
  | v :: rest => E_dma_write i (mask16 v) :: dma_write_events (i + 1) rest
  end.

(** One firing of the timer, the seven statements of lines 105-119,
    the samples of the burst, and the five statements of lines
    129-141. *)
Definition one_cycle (samples : list Z) : list action :=
  A_tick :: repeat A_main 7 ++ map A_dma samples ++ repeat A_main 5.


(** *** The configuration calls of a cycle *)

(** The call that opens a cycle and the two that configure the FIFO
    and the DMA. *)
Definition is_configuration (e : event) : bool :=
  match e with
  | E_adc_fifo_drain | E_adc_fifo_setup _ _ _ _ _
  | E_dma_channel_configure _ _ _ _ _ _ => true
  | _ => false
  end.

(** What one cycle makes of them, in order (lines 111, 115 and
    119-126). *)
Definition configuration_events (chan : Z) (c : dma_channel_config) : list event :=
  [ E_adc_fifo_drain;
    E_adc_fifo_setup true true 1 false false;
    E_dma_channel_configure chan c ADDR_adc_buffer ADDR_adc_hw_fifo 100 true ].

(** How many of them the current cycle has made when [main] is at a
    control point. *)
Definition configured (l : label) : nat :=
  match l with
  | L_wait | L_clear | L_drain => 0
  | L_stop | L_fifo_setup => 1
  | L_run | L_dma_configure => 2
  | _ => 3
  end.

(** Whether the current cycle has begun: [main] is past line 111. *)
Definition begun (l : label) : nat :=
  match l with
  | L_wait | L_clear | L_drain => 0
  | _ => 1
  end.

(** A firing is not lost: since the count [base] of cycles a cycle
    has begun, or the flag is up, or [main] has just lowered it and is
    about to begin a cycle. *)
Definition flag_pending (base : nat) (st : state) : Prop :=
  (base < samplings st)%nat \/ timer_fired st = true \/ pc st = L_drain.

End Machine.

Import Machine.

(** ** Facts about binary32 rounding *)

(** *** Digits and shifts *)

Lemma digits2_pos_bounds (p : positive) :
  2 ^ (Z.pos (digits2_pos p) - 1) <= Z.pos p < 2 ^ Z.pos (digits2_pos p).
Proof.
  induction p as [p IH | p IH |]; simpl digits2_pos.
  - rewrite Pos2Z.inj_succ. replace (Z.succ (Z.pos (digits2_pos p)) - 1) with (Z.succ (Z.pos (digits2_pos p) - 1)) by lia.
    rewrite !Z.pow_succ_r by lia. lia.
  - rewrite Pos2Z.inj_succ. replace (Z.succ (Z.pos (digits2_pos p)) - 1) with (Z.succ (Z.pos (digits2_pos p) - 1)) by lia.
    rewrite !Z.pow_succ_r by lia. lia.
  - simpl. lia.
Qed.

Lemma Zdigits2_le (m k : Z) : 0 <= m -> 0 <= k -> m < 2 ^ k -> Zdigits2 m <= k.
Proof.
  intros Hm Hk Hlt. destruct m as [|p|p]; simpl; try lia.
  destruct (digits2_pos_bounds p) as [Hlo _].
  destruct (Z_le_gt_dec (Z.pos (digits2_pos p)) k) as [|Hgt]; [assumption|].
  assert (2 ^ k <= 2 ^ (Z.pos (digits2_pos p) - 1)) by (apply Z.pow_le_mono_r; lia).
  lia.
Qed.

Lemma Zdigits2_gt (m : Z) : 0 <= m -> m < 2 ^ Zdigits2 m.
Proof.
  intros Hm. destruct m as [|p|p]; simpl; try lia.
  apply digits2_pos_bounds.
Qed.

Lemma shr_1_inv X N q r s :
  0 <= q -> 0 < N -> loc_inv X N q r s ->
  let x := shr_1 (Build_shr_record q r s) in
  0 <= shr_m x /\ loc_inv X (2 * N) (shr_m x) (shr_r x) (shr_s x).
Proof.
  intros Hq HN (rho & HX & Hrho & Hloc).
  destruct q as [|[p|p|]|]; try lia;
    try rewrite Pos2Z.inj_xI in HX; try rewrite Pos2Z.inj_xO in HX;
    cbn [shr_1 shr_m shr_r shr_s]; (split; [lia|]);
    first [ exists rho; destruct r, s; cbn [orb]; repeat split; lia
          | exists (N + rho); destruct r, s; cbn [orb]; repeat split; lia ].
Qed.

Lemma iter_shr_1_inv (p : positive) : forall X N q r s,
  0 <= q -> 0 < N -> loc_inv X N q r s ->
  let x := iter_pos shr_1 p (Build_shr_record q r s) in
  0 <= shr_m x /\ loc_inv X (N * 2 ^ Z.pos p) (shr_m x) (shr_r x) (shr_s x).
Proof.
  induction p as [p IH | p IH |]; intros X N q r s Hq HN Hinv; cbv zeta; cbn [iter_pos].
  - destruct (shr_1_inv X N q r s Hq HN Hinv) as [Hq1 H1].
    destruct (shr_1 (Build_shr_record q r s)) as [q1 r1 s1]; cbn [shr_m shr_r shr_s] in Hq1, H1.
    destruct (IH X (2 * N) q1 r1 s1 Hq1 ltac:(lia) H1) as [Hq2 H2].
    destruct (iter_pos shr_1 p (Build_shr_record q1 r1 s1)) as [q2 r2 s2]; cbn [shr_m shr_r shr_s] in Hq2, H2.
    assert (0 < 2 ^ Z.pos p) by (apply Z.pow_pos_nonneg; lia).
    destruct (IH X (2 * N * 2 ^ Z.pos p) q2 r2 s2 Hq2 ltac:(nia) H2) as [Hq3 H3].
    split; [exact Hq3|].
    replace (N * 2 ^ Z.pos p~1) with (2 * N * 2 ^ Z.pos p * 2 ^ Z.pos p); [exact H3|].
    rewrite Pos2Z.inj_xI, Z.pow_add_r, Z.pow_twice_r, Z.pow_1_r by lia. ring.
  - destruct (IH X N q r s Hq HN Hinv) as [Hq2 H2].
    destruct (iter_pos shr_1 p (Build_shr_record q r s)) as [q2 r2 s2]; cbn [shr_m shr_r shr_s] in Hq2, H2.
    assert (0 < 2 ^ Z.pos p) by (apply Z.pow_pos_nonneg; lia).
    destruct (IH X (N * 2 ^ Z.pos p) q2 r2 s2 Hq2 ltac:(nia) H2) as [Hq3 H3].
    split; [exact Hq3|].
    replace (N * 2 ^ Z.pos p~0) with (N * 2 ^ Z.pos p * 2 ^ Z.pos p); [exact H3|].
    change (Z.pos p~0) with (2 * Z.pos p). rewrite Z.pow_twice_r. ring.
  - replace (N * 2 ^ 1) with (2 * N) by (rewrite Z.pow_1_r; ring).
    apply shr_1_inv; assumption.
Qed.

Lemma round_nearest_even_inv X N q r s :
  0 < N -> loc_inv X N q r s ->
  let m1 := round_nearest_even q (loc_of_shr_record (Build_shr_record q r s)) in
  q <= m1 <= q + 1 /\ 2 * Z.abs (m1 * N - X) <= N.
Proof.
  intros HN (rho & HX & Hrho & Hloc).
  destruct r, s; cbv beta iota in Hloc; cbn [loc_of_shr_record round_nearest_even].
  - split; [lia|]. replace ((q + 1) * N - X) with (N - rho) by (rewrite HX; ring). lia.
  - destruct (Z.even q).
    + split; [lia|]. replace (q * N - X) with (- rho) by (rewrite HX; ring). lia.
    + split; [lia|]. replace ((q + 1) * N - X) with (N - rho) by (rewrite HX; ring). lia.
  - split; [lia|]. replace (q * N - X) with (- rho) by (rewrite HX; ring). lia.
  - split; [lia|]. replace (q * N - X) with (- rho) by (rewrite HX; ring). lia.
Qed.

(** *** The shift to the exponent of the format *)

Lemma fexp_eq (e : Z) : fexp 24 128 e = Z.max (e - 24) (-149).
Proof. reflexivity. Qed.

Lemma loc_ok_record X N q l :
  loc_ok X N q l ->
  exists r s, shr_record_of_loc q l = Build_shr_record q r s /\ loc_inv X N q r s.
Proof.
  destruct l as [|[]]; simpl; intros H; eauto.
Qed.

Lemma pow2_pos (n : Z) : 0 <= n -> 0 < 2 ^ n.
Proof. intros; apply Z.pow_pos_nonneg; lia. Qed.

Lemma pow2_split (a b : Z) : 0 <= a -> 0 <= b -> 2 ^ (a + b) = 2 ^ a * 2 ^ b.
Proof. intros; apply Z.pow_add_r; assumption. Qed.

(** first shift *)
Lemma shr_fexp_inv mx ex lx X D :
  0 <= mx -> 0 < D -> loc_ok X D mx lx ->
  let e1 := Z.max ex (fexp 24 128 (Zdigits2 mx + ex)) in
  exists q r s,
    shr_fexp 24 128 mx ex lx = (Build_shr_record q r s, e1) /\
    0 <= q < 2 ^ 24 /\ loc_inv X (D * 2 ^ (e1 - ex)) q r s.
Proof.
  intros Hmx HD Hloc e1.
  destruct (loc_ok_record _ _ _ _ Hloc) as (r & s & Hrec & Hinv).
  unfold shr_fexp. rewrite Hrec.
  pose proof (Zdigits2_gt mx Hmx) as Hdig.
  assert (Hd0 : 0 <= Zdigits2 mx) by (destruct mx; simpl; lia).
  assert (HXlt : X < (mx + 1) * D) by (destruct Hinv as (rho & -> & ? & _); lia).
  assert (HXge : mx * D <= X) by (destruct Hinv as (rho & -> & ? & _); lia).
  subst e1. rewrite fexp_eq in *.
  destruct (Z.max (Zdigits2 mx + ex - 24) (-149) - ex) as [|p|p] eqn:Hn; cbn [shr].
  - exists mx, r, s. replace (Z.max ex (Z.max (Zdigits2 mx + ex - 24) (-149))) with ex by lia.
    rewrite Z.sub_diag, Z.mul_1_r. repeat split; try assumption.
    assert (2 ^ Zdigits2 mx <= 2 ^ 24) by (apply Z.pow_le_mono_r; lia). lia.
  - destruct (iter_shr_1_inv p X D mx r s Hmx HD Hinv) as [Hq Hinv'].
    destruct (iter_pos shr_1 p (Build_shr_record mx r s)) as [q r' s']; cbn [shr_m shr_r shr_s] in *.
    exists q, r', s'.
    replace (Z.max ex (Z.max (Zdigits2 mx + ex - 24) (-149))) with (ex + Z.pos p) by lia.
    replace (ex + Z.pos p - ex) with (Z.pos p) by lia.
    repeat split; try assumption.
    destruct Hinv' as (rho & HX & Hrho & _).
    assert (Hp : 0 < 2 ^ Z.pos p) by (apply pow2_pos; lia).
    assert (Hle : 2 ^ Zdigits2 mx <= 2 ^ (24 + Z.pos p)) by (apply Z.pow_le_mono_r; lia).
    rewrite pow2_split in Hle by lia.
    assert (q * 2 ^ Z.pos p < mx + 1) by nia.
    nia.
  - exists mx, r, s. replace (Z.max ex (Z.max (Zdigits2 mx + ex - 24) (-149))) with ex by lia.
    rewrite Z.sub_diag, Z.mul_1_r. repeat split; try assumption.
    assert (2 ^ Zdigits2 mx <= 2 ^ 24) by (apply Z.pow_le_mono_r; lia). lia.
Qed.

(** second shift, after rounding *)
Lemma shr_fexp_exact m1 e1 :
  0 <= m1 <= 2 ^ 24 -> -149 <= e1 ->
  exists m2 e2,
    shr_fexp 24 128 m1 e1 loc_Exact = (Build_shr_record m2 false false, e2) /\
    0 <= m2 /\ e1 <= e2 <= e1 + 1 /\ m2 * 2 ^ (e2 - e1) = m1.
Proof.
  intros Hm He.
  destruct (Z.eq_dec m1 (2 ^ 24)) as [->|Hne].
  - exists (2 ^ 23), (e1 + 1). unfold shr_fexp. rewrite fexp_eq.
    change (Zdigits2 (2 ^ 24)) with 25.
    replace (Z.max (25 + e1 - 24) (-149) - e1) with 1 by lia.
    split; [reflexivity|]. replace (e1 + 1 - e1) with 1 by lia. split; [|split]; try lia; reflexivity.
  - exists m1, e1. unfold shr_fexp. rewrite fexp_eq.
    assert (Zdigits2 m1 <= 24) by (apply Zdigits2_le; lia).
    rewrite Z.sub_diag, Z.mul_1_r.
    destruct (Z.max (Zdigits2 m1 + e1 - 24) (-149) - e1) as [|p|p] eqn:Hn; cbn [shr shr_record_of_loc];
      try lia; repeat split; lia.
Qed.

(** *** Rounding to nearest *)

Lemma sval_mag x : F32.sval x = cond_Zopp (F32.sign_of x) (F32.mag x).
Proof. destruct x as [s|s| |s m e]; try destruct s; reflexivity. Qed.

Lemma binary_round_aux_spec sx mx ex lx X D :
  0 <= mx -> 0 < D -> loc_ok X D mx lx -> F32.emin <= ex ->
  let e1 := Z.max ex (fexp 24 128 (Zdigits2 mx + ex)) in
  e1 < 104 ->
  let f := binary_round_aux 24 128 sx mx ex lx in
  F32.wf f = true /\ F32.sign_of f = sx /\
  2 * Z.abs (D * F32.mag f - X * 2 ^ (ex - F32.emin)) <= D * 2 ^ (e1 - F32.emin).
Proof.
  intros Hmx HD Hloc Hex e1 He1 f.
  destruct (shr_fexp_inv mx ex lx X D Hmx HD Hloc) as (q & r & s & Hshr & Hq & Hinv).
  fold e1 in Hshr, Hinv.
  assert (Hee : ex <= e1) by (unfold e1; lia).
  assert (HN : 0 < D * 2 ^ (e1 - ex)) by (pose proof (pow2_pos (e1 - ex)); nia).
  destruct (round_nearest_even_inv X _ q r s HN Hinv) as [Hm1 Herr].
  set (m1 := round_nearest_even q (loc_of_shr_record (Build_shr_record q r s))) in *.
  unfold F32.emin in *.
  destruct (shr_fexp_exact m1 e1 ltac:(lia) ltac:(lia)) as (m2 & e2 & Hshr2 & Hm2 & He2 & Hval).
  subst f. unfold binary_round_aux. rewrite Hshr. cbn [shr_m]. fold m1. rewrite Hshr2. cbn [shr_m].
  assert (Hscale : 2 ^ (e1 - -149) = 2 ^ (e1 - ex) * 2 ^ (ex - -149))
    by (rewrite <- pow2_split by lia; f_equal; lia).
  assert (Hp : 0 < 2 ^ (ex - -149)) by (apply pow2_pos; lia).
  assert (Hbound : 2 * Z.abs (D * (m1 * 2 ^ (e1 - -149)) - X * 2 ^ (ex - -149)) <= D * 2 ^ (e1 - -149)).
  { rewrite Hscale.
    replace (D * (m1 * (2 ^ (e1 - ex) * 2 ^ (ex - -149))) - X * 2 ^ (ex - -149))
      with ((m1 * (D * 2 ^ (e1 - ex)) - X) * 2 ^ (ex - -149)) by ring.
    rewrite Z.abs_mul, (Z.abs_eq (2 ^ _)) by lia. nia. }
  destruct m2 as [|m|m]; try lia.
  - assert (m1 = 0) by lia. subst m1. rewrite H in Hbound.
    cbn [F32.wf F32.sign_of F32.mag]. repeat split. rewrite Z.mul_0_r in *. exact Hbound.
  - replace (e2 <=? 128 - 24) with true by (symmetry; apply Z.leb_le; lia).
    cbn [F32.wf F32.sign_of F32.mag]. repeat split.
    + unfold F32.emin, F32.emax, F32.prec. apply andb_true_intro; split; apply Z.leb_le; lia.
    + change F32.emin with (-149). replace (Z.pos m * 2 ^ (e2 - -149)) with (m1 * 2 ^ (e1 - -149)); [exact Hbound|].
      rewrite <- Hval. replace (e2 - -149) with ((e2 - e1) + (e1 - -149)) by lia.
      rewrite pow2_split by lia. ring.
Qed.

(** *** Addition *)

Lemma iter_xO_spec (m d : positive) : Z.pos (Pos.iter xO m d) = Z.pos m * 2 ^ Z.pos d.
Proof.
  induction d as [|d IH] using Pos.peano_ind.
  - cbn [Pos.iter]. rewrite Z.pow_1_r. lia.
  - rewrite Pos.iter_succ, Pos2Z.inj_succ, Z.pow_succ_r by lia.
    change (Z.pos (Pos.iter xO m d)~0) with (2 * Z.pos (Pos.iter xO m d)). rewrite IH. ring.
Qed.

Lemma shl_align_spec (mx : positive) (ex ex' : Z) :
  -149 <= ex -> -149 <= ex' ->
  snd (shl_align mx ex ex') = Z.min ex ex' /\
  Z.pos (fst (shl_align mx ex ex')) * 2 ^ (snd (shl_align mx ex ex') - -149) = Z.pos mx * 2 ^ (ex - -149).
Proof.
  intros Hex Hex'. unfold shl_align.
  destruct (ex' - ex) as [|d|d] eqn:Hd; cbn [fst snd]; try (split; [lia|reflexivity]).
  split; [lia|]. rewrite iter_xO_spec.
  replace (ex - -149) with (Z.pos d + (ex' - -149)) by lia.
  rewrite pow2_split by lia. ring.
Qed.

Lemma digits_exp_bound (m e k : Z) :
  0 < m -> -149 <= e -> -149 <= k -> m * 2 ^ (e - -149) < 2 ^ (k - -149) ->
  Zdigits2 m + e <= k.
Proof.
  intros Hm He Hk Hlt.
  destruct m as [|p|p]; try lia.
  - cbn [Zdigits2]. destruct (digits2_pos_bounds p) as [Hlo _].
    set (d := Z.pos (digits2_pos p)) in *.
    assert (0 < d) by (unfold d; lia).
    destruct (Z_le_gt_dec (d + e) k) as [|Hgt]; [assumption|exfalso].
    assert (H2 : 2 ^ (k - -149) <= 2 ^ ((d - 1) + (e - -149))) by (apply Z.pow_le_mono_r; lia).
    rewrite pow2_split in H2 by lia.
    pose proof (pow2_pos (e - -149) ltac:(lia)). nia.
Qed.

Lemma binary_round_spec sx (p : positive) e k :
  -149 <= e -> -125 <= k <= 127 ->
  Z.pos p * 2 ^ (e - -149) < 2 ^ (k - -149) ->
  let f := binary_round 24 128 sx p e in
  F32.wf f = true /\ F32.sign_of f = sx /\
  2 * Z.abs (F32.mag f - Z.pos p * 2 ^ (e - -149)) <= 2 ^ (k - 24 - -149).
Proof.
  intros He Hk Hlt f. subst f. unfold binary_round.
  pose proof (digits_exp_bound (Z.pos p) e k ltac:(lia) He ltac:(lia) Hlt) as Hdig.
  cbn [Zdigits2] in Hdig.
  assert (Hfe : -149 <= fexp 24 128 (Z.pos (digits2_pos p) + e)) by (rewrite fexp_eq; lia).
  destruct (shl_align_spec p e _ He Hfe) as [He2 Hval].
  destruct (shl_align p e (fexp 24 128 (Z.pos (digits2_pos p) + e))) as [mz ez]; cbn [fst snd] in *.
  rewrite <- Hval in *.
  assert (Hez : -149 <= ez) by lia.
  pose proof (digits_exp_bound (Z.pos mz) ez k ltac:(lia) Hez ltac:(lia) Hlt) as Hdig2.
  assert (Hloc : loc_ok (Z.pos mz) 1 (Z.pos mz) loc_Exact).
  { exists 0. repeat split; lia. }
  pose proof (binary_round_aux_spec sx (Z.pos mz) ez loc_Exact (Z.pos mz) 1 ltac:(lia) ltac:(lia) Hloc Hez) as Hspec.
  cbv zeta in Hspec. rewrite fexp_eq in *.
  set (e1 := Z.max ez (Z.max (Zdigits2 (Z.pos mz) + ez - 24) (-149))) in *.
  assert (He1 : e1 <= k - 24) by (unfold e1; lia).
  destruct (Hspec ltac:(lia)) as (Hwf & Hsg & Herr).
  repeat split; try assumption.
  change F32.emin with (-149) in Herr. rewrite Z.mul_1_l in Herr.
  assert (2 ^ (e1 - -149) <= 2 ^ (k - 24 - -149)) by (apply Z.pow_le_mono_r; lia).
  lia.
Qed.

Lemma binary_normalize_spec (M e k : Z) :
  -149 <= e -> -125 <= k <= 127 ->
  Z.abs M * 2 ^ (e - -149) < 2 ^ (k - -149) ->
  let f := binary_normalize 24 128 M e false in
  F32.wf f = true /\
  2 * Z.abs (F32.sval f - M * 2 ^ (e - -149)) <= 2 ^ (k - 24 - -149).
Proof.
  intros He Hk Hlt f. subst f.
  assert (0 < 2 ^ (k - 24 - -149)) by (apply pow2_pos; lia).
  destruct M as [|p|p]; cbn [binary_normalize].
  - split; [reflexivity|]. simpl. lia.
  - destruct (binary_round_spec false p e k He Hk Hlt) as (Hwf & Hsg & Herr).
    split; [assumption|]. rewrite sval_mag, Hsg. exact Herr.
  - destruct (binary_round_spec true p e k He Hk Hlt) as (Hwf & Hsg & Herr).
    split; [assumption|]. rewrite sval_mag, Hsg. cbn [cond_Zopp].
    replace (- F32.mag (binary_round 24 128 true p e) - Z.neg p * 2 ^ (e - -149))
      with (- (F32.mag (binary_round 24 128 true p e) - Z.pos p * 2 ^ (e - -149))) by lia.
    rewrite Z.abs_opp. exact Herr.
Qed.

Lemma wf_finite s m e : F32.wf (S754_finite s m e) = true -> -149 <= e <= 104.
Proof.
  cbn [F32.wf]. intros H. apply andb_prop in H. destruct H as [H1 H2].
  apply Z.leb_le in H1, H2. unfold F32.emin, F32.emax, F32.prec in *. lia.
Qed.

Lemma add_spec (x y : F32.float) (k : Z) :
  F32.wf x = true -> F32.wf y = true -> -125 <= k <= 127 ->
  Z.abs (F32.sval x + F32.sval y) < 2 ^ (k - -149) ->
  F32.wf (F32.add x y) = true /\
  2 * Z.abs (F32.sval (F32.add x y) - (F32.sval x + F32.sval y)) <= 2 ^ (k - 24 - -149).
Proof.
  intros Hx Hy Hk Hlt.
  assert (Hpos : 0 < 2 ^ (k - 24 - -149)) by (apply pow2_pos; lia).
  destruct x as [sx|sx| |sx mx ex]; try discriminate Hx;
  destruct y as [sy|sy| |sy my ey]; try discriminate Hy.
  - split; [destruct sx, sy; reflexivity|]. destruct sx, sy; simpl; lia.
  - split; [exact Hy|]. cbn [F32.add SFadd F32.sval]. lia.
  - split; [exact Hx|]. cbn [F32.add SFadd F32.sval]. lia.
  - pose proof (wf_finite _ _ _ Hx) as Hex. pose proof (wf_finite _ _ _ Hy) as Hey.
    unfold F32.add. cbn [SFadd]. cbv zeta.
    destruct (shl_align_spec mx ex (Z.min ex ey) ltac:(lia) ltac:(lia)) as [Hs1 Hv1].
    destruct (shl_align_spec my ey (Z.min ex ey) ltac:(lia) ltac:(lia)) as [Hs2 Hv2].
    set (ax := fst (shl_align mx ex (Z.min ex ey))) in *.
    set (ay := fst (shl_align my ey (Z.min ex ey))) in *.
    replace (snd (shl_align mx ex (Z.min ex ey))) with (Z.min ex ey) in Hv1 by lia.
    replace (snd (shl_align my ey (Z.min ex ey))) with (Z.min ex ey) in Hv2 by lia.
    set (M := cond_Zopp sx (Z.pos ax) + cond_Zopp sy (Z.pos ay)).
    assert (HM : M * 2 ^ (Z.min ex ey - -149) = F32.sval (S754_finite sx mx ex) + F32.sval (S754_finite sy my ey)).
    { unfold M. cbn [F32.sval]. change F32.emin with (-149). rewrite <- Hv1, <- Hv2.
      destruct sx, sy; cbn [cond_Zopp]; ring. }
    rewrite <- HM in *.
    apply binary_normalize_spec; try lia.
    all: rewrite <- (Z.abs_eq (2 ^ (Z.min ex ey - -149))) by (apply Z.lt_le_incl, pow2_pos; lia).
    all: rewrite <- Z.abs_mul; exact Hlt.
Qed.

(** *** Division *)

Lemma new_location_ok (my q r X : Z) :
  X = q * my + r -> 0 <= r < my -> loc_ok X my q (new_location my r).
Proof.
  intros HX Hr. unfold new_location, new_location_even, new_location_odd.
  destruct (Z.even my); destruct (Z.eqb_spec r 0) as [Hr0|Hr0].
  - exists r. repeat split; lia.
  - destruct (Z.compare_spec (2 * r) my); exists r; repeat split; lia.
  - exists r. repeat split; lia.
  - destruct (Z.compare_spec (2 * r + 1) my); exists r; repeat split; lia.
Qed.

Lemma shiftl_case (m s : Z) :
  0 <= s ->
  match s with Z.pos _ => Z.shiftl m s | 0 => m | Z.neg _ => 0 end = m * 2 ^ s.
Proof.
  intros Hs. destruct s as [|p|p]; [ rewrite Z.pow_0_r; lia | apply Z.shiftl_mul_pow2; lia | lia ].
Qed.

Lemma quotient_exponent (mx my ex ey k d1 d2 : Z) :
  2 ^ (d1 - 1) <= mx -> my < 2 ^ d2 -> 0 < d1 -> 0 < d2 ->
  -149 <= ex -> ey <= 0 -> -149 <= k ->
  mx * 2 ^ (ex - -149) * 2 ^ (- ey) < my * 2 ^ (k - -149) ->
  d1 + ex - (d2 + ey) <= k.
Proof.
  intros Hlo Hhi Hd1 Hd2 Hex Hey Hk Hlt.
  destruct (Z_le_gt_dec (d1 + ex - (d2 + ey)) k) as [|Hgt]; [assumption|exfalso].
  assert (H2 : 2 ^ (d2 + (k - -149)) <= 2 ^ ((d1 - 1) + ((ex - -149) + - ey)))
    by (apply Z.pow_le_mono_r; lia).
  rewrite !pow2_split in H2 by lia.
  pose proof (pow2_pos (ex - -149) ltac:(lia)) as P1.
  pose proof (pow2_pos (- ey) ltac:(lia)) as P2.
  pose proof (pow2_pos (k - -149) ltac:(lia)) as P3.
  rewrite <- Z.mul_assoc in Hlt.
  set (P := 2 ^ (ex - -149) * 2 ^ (- ey)) in *.
  assert (HP : 0 < P) by (apply Z.mul_pos_pos; assumption).
  assert (A : my * 2 ^ (k - -149) < 2 ^ d2 * 2 ^ (k - -149))
    by (apply Z.mul_lt_mono_pos_r; assumption).
  assert (B : 2 ^ (d1 - 1) * P <= mx * P)
    by (apply Z.mul_le_mono_nonneg_r; [apply Z.lt_le_incl|]; assumption).
  lia.
Qed.

Lemma div_spec (x : F32.float) (my : positive) (ey k : Z) :
  F32.wf x = true -> -149 <= ey <= 0 -> -125 <= k <= 127 ->
  Z.abs (F32.sval x) * 2 ^ (- ey) < Z.pos my * 2 ^ (k - -149) ->
  let f := F32.div x (S754_finite false my ey) in
  F32.wf f = true /\
  2 * Z.abs (Z.pos my * F32.sval f - F32.sval x * 2 ^ (- ey)) <= Z.pos my * 2 ^ (k - 24 - -149).
Proof.
  intros Hx Hey Hk Hlt f. subst f.
  assert (Hpos : 0 < 2 ^ (k - 24 - -149)) by (apply pow2_pos; lia).
  destruct x as [sx|sx| |sx mx ex]; try discriminate Hx.
  - split; [reflexivity|]. cbn [F32.div SFdiv F32.sval]. lia.
  - pose proof (wf_finite _ _ _ Hx) as Hex.
    unfold F32.div. cbn [SFdiv]. unfold SFdiv_core_binary. cbv zeta. rewrite xorb_false_r.
    cbn [F32.sval] in *. change F32.emin with (-149) in *.
    set (d1 := Zdigits2 (Z.pos mx)). set (d2 := Zdigits2 (Z.pos my)).
    rewrite fexp_eq.
    set (e' := Z.min (Z.max (d1 + ex - (d2 + ey) - 24) (-149)) (ex - ey)).
    set (s := ex - ey - e').
    assert (Hs : 0 <= s) by (unfold s, e'; lia).
    set (m' := match s with Z.pos _ => Z.shiftl (Z.pos mx) s | 0 => Z.pos mx | Z.neg _ => 0 end).
    assert (Hm' : m' = Z.pos mx * 2 ^ s).
    { apply shiftl_case; exact Hs. }
    assert (Habs : Z.abs (cond_Zopp sx (Z.pos mx * 2 ^ (ex - -149))) = Z.pos mx * 2 ^ (ex - -149)).
    { pose proof (pow2_pos (ex - -149) ltac:(lia)). destruct sx; cbn [cond_Zopp]; nia. }
    rewrite Habs in Hlt.
    assert (Hval : m' * 2 ^ (e' - -149) = Z.pos mx * 2 ^ (ex - -149) * 2 ^ (- ey)).
    { rewrite Hm', <- !Z.mul_assoc, <- !pow2_split by (unfold e'; lia).
      f_equal. f_equal. unfold s. lia. }
    pose proof (Z.div_mod m' (Z.pos my) ltac:(lia)) as Hdm.
    pose proof (Z.mod_pos_bound m' (Z.pos my) ltac:(lia)) as Hmod.
    assert (Hq0 : 0 <= m' / Z.pos my) by (apply Z.div_pos; [rewrite Hm'; pose proof (pow2_pos s Hs); nia | lia]).
    unfold Z.div, Z.modulo in Hdm, Hmod, Hq0.
    destruct (Z.div_eucl m' (Z.pos my)) as [q r]; cbn [fst snd] in *.
    assert (He' : -149 <= e') by (unfold e'; lia).
    assert (Hqr : m' = q * Z.pos my + r) by lia.
    pose proof (binary_round_aux_spec sx q e' (new_location (Z.pos my) r) m' (Z.pos my)
                  Hq0 ltac:(lia) (new_location_ok (Z.pos my) q r m' Hqr Hmod) He') as Hspec.
    cbv zeta in Hspec. rewrite fexp_eq in Hspec.
    set (e1 := Z.max e' (Z.max (Zdigits2 q + e' - 24) (-149))) in *.
    assert (Hd1 : d1 + ex - (d2 + ey) <= k).
    { destruct (digits2_pos_bounds mx) as [Hlo _]. destruct (digits2_pos_bounds my) as [_ Hhi].
      refine (quotient_exponent (Z.pos mx) (Z.pos my) ex ey k d1 d2 Hlo Hhi _ _ _ _ _ Hlt);
        try (unfold d1, d2; cbn [Zdigits2]); lia. }
    assert (Hdq : Zdigits2 q + e' - 24 <= k - 24).
    { destruct (Z.eq_dec q 0) as [->|Hq]; [simpl; unfold e'; lia|].
      enough (Zdigits2 q + e' <= k) by lia.
      apply digits_exp_bound; try lia.
      pose proof (pow2_pos (e' - -149) ltac:(lia)) as Hpe.
      assert (Hle : q * Z.pos my * 2 ^ (e' - -149) <= m' * 2 ^ (e' - -149))
        by (apply Z.mul_le_mono_nonneg_r; lia).
      assert (Hlt' : q * 2 ^ (e' - -149) * Z.pos my < 2 ^ (k - -149) * Z.pos my) by lia.
      apply Z.mul_lt_mono_pos_r in Hlt'; lia. }
    assert (He1 : e1 <= k - 24) by (unfold e1, e'; lia).
    destruct (Hspec ltac:(lia)) as (Hwf & Hsg & Herr).
    split; [assumption|].
    change F32.emin with (-149) in Herr. rewrite Hval in Herr.
    cbv beta iota zeta. unfold F32.prec, F32.emax. rewrite sval_mag, Hsg.
    assert (2 ^ (e1 - -149) <= 2 ^ (k - 24 - -149)) by (apply Z.pow_le_mono_r; lia).
    set (mg := F32.mag _) in *. set (V := Z.pos mx * 2 ^ (ex - -149)) in *.
    assert (Heq : Z.abs (Z.pos my * cond_Zopp sx mg - cond_Zopp sx V * 2 ^ (- ey))
                  = Z.abs (Z.pos my * mg - V * 2 ^ (- ey))).
    { destruct sx; cbn [cond_Zopp]; [|reflexivity].
      rewrite <- Z.abs_opp. f_equal. ring. }
    rewrite Heq. eapply Z.le_trans; [exact Herr|].
    apply Z.mul_le_mono_nonneg_l; [lia|assumption].
Qed.

(** *** Comparison *)

Lemma valid_finite_bounds s m e :
  F32.valid (S754_finite s m e) = true ->
  -149 <= e <= 104 /\ Z.pos m < 2 ^ 24 /\ (-149 < e -> 2 ^ 23 <= Z.pos m).
Proof.
  unfold F32.valid, F32.prec, F32.emax. cbn [valid_binary F32.is_finite]. rewrite andb_true_r.
  unfold bounded, canonical_mantissa. intros H. apply andb_prop in H. destruct H as [Hc He].
  apply Z.eqb_eq in Hc. apply Z.leb_le in He. rewrite fexp_eq in Hc.
  destruct (digits2_pos_bounds m) as [Hlo Hhi].
  set (d := Z.pos (digits2_pos m)) in *.
  assert (Hd : d <= 24) by lia.
  assert (2 ^ d <= 2 ^ 24) by (apply Z.pow_le_mono_r; lia).
  repeat split; try lia.
  intros Hgt. assert (d = 24) by lia. replace (d - 1) with 23 in Hlo by lia. exact Hlo.
Qed.

Lemma mag_pos (s : bool) (m : positive) (e : Z) : -149 <= e -> 0 < Z.pos m * 2 ^ (e - -149).
Proof. intros He. pose proof (pow2_pos (e - -149) ltac:(lia)). nia. Qed.

Lemma mag_lt_exp m1 e1 m2 e2 :
  -149 <= e1 -> e1 < e2 -> Z.pos m1 < 2 ^ 24 -> 2 ^ 23 <= Z.pos m2 ->
  Z.pos m1 * 2 ^ (e1 - -149) < Z.pos m2 * 2 ^ (e2 - -149).
Proof.
  intros He1 Hlt Hm1 Hm2.
  assert (H : 2 * 2 ^ (e1 - -149) <= 2 ^ (e2 - -149)).
  { rewrite <- Z.pow_succ_r by lia. apply Z.pow_le_mono_r; lia. }
  pose proof (pow2_pos (e1 - -149) ltac:(lia)).
  change (2 ^ 24) with 16777216 in *. change (2 ^ 23) with 8388608 in *. nia.
Qed.

Lemma SFcompare_sval x y :
  F32.valid x = true -> F32.valid y = true ->
  SFcompare x y = Some (F32.sval x ?= F32.sval y).
Proof.
  intros Hx Hy.
  destruct x as [sx|sx| |sx mx ex]; try discriminate Hx;
  destruct y as [sy|sy| |sy my ey]; try discriminate Hy.
  - reflexivity.
  - destruct (valid_finite_bounds _ _ _ Hy) as (He & _ & _).
    pose proof (mag_pos sy my ey ltac:(lia)).
    cbn [SFcompare F32.sval]. change F32.emin with (-149).
    destruct sy; cbn [cond_Zopp]; f_equal; symmetry.
    + apply Z.compare_gt_iff. lia.
    + apply Z.compare_lt_iff. lia.
  - destruct (valid_finite_bounds _ _ _ Hx) as (He & _ & _).
    pose proof (mag_pos sx mx ex ltac:(lia)).
    cbn [SFcompare F32.sval]. change F32.emin with (-149).
    destruct sx; cbn [cond_Zopp]; f_equal; symmetry.
    + apply Z.compare_lt_iff. lia.
    + apply Z.compare_gt_iff. lia.
  - destruct (valid_finite_bounds _ _ _ Hx) as (Hex & Hmx & Hnx).
    destruct (valid_finite_bounds _ _ _ Hy) as (Hey & Hmy & Hny).
    pose proof (mag_pos sx mx ex ltac:(lia)) as Hpx.
    pose proof (mag_pos sy my ey ltac:(lia)) as Hpy.
    cbn [SFcompare F32.sval]. change F32.emin with (-149). f_equal.
    assert (Hcmp : (match ex ?= ey with
                    | Eq => Pos.compare_cont Eq mx my
                    | Lt => Lt
                    | Gt => Gt
                    end) = (Z.pos mx * 2 ^ (ex - -149) ?= Z.pos my * 2 ^ (ey - -149))).
    { symmetry. destruct (Z.compare_spec ex ey) as [Heq|Hlt|Hgt].
      - subst ey. change (Pos.compare_cont Eq mx my) with (Z.pos mx ?= Z.pos my).
        pose proof (pow2_pos (ex - -149) ltac:(lia)).
        destruct (Z.compare_spec (Z.pos mx) (Z.pos my)) as [E|L|G].
        + rewrite E. apply Z.compare_refl.
        + apply Z.compare_lt_iff. nia.
        + apply Z.compare_gt_iff. nia.
      - apply Z.compare_lt_iff. apply mag_lt_exp; lia.
      - apply Z.compare_gt_iff. apply mag_lt_exp; lia. }
    destruct sx, sy; cbn [cond_Zopp].
    + rewrite Z.compare_opp, (Z.compare_antisym (Z.pos mx * 2 ^ (ex - -149))), <- Hcmp.
      destruct (ex ?= ey); reflexivity.
    + symmetry. apply Z.compare_lt_iff. lia.
    + symmetry. apply Z.compare_gt_iff. lia.
    + exact Hcmp.
Qed.

Lemma ltb_sval x y :
  F32.valid x = true -> F32.valid y = true ->
  (F32.ltb x y = true <-> F32.sval x < F32.sval y).
Proof.
  intros Hx Hy. unfold F32.ltb, SFltb. rewrite (SFcompare_sval x y Hx Hy).
  destruct (Z.compare_spec (F32.sval x) (F32.sval y)); split; intros; try lia; try discriminate; reflexivity.
Qed.

(** *** Summation *)

Section FoldError.

Variables C k k2 delta : Z.
Hypothesis Hdelta : delta = 2 ^ (k - 24 - -149).
Hypothesis Hk : -125 <= k <= 127.
Hypothesis Hk2 : -125 <= k2 <= 127.
Hypothesis HC : 0 <= C.

Lemma fold_add_error (n : Z) : forall (cs : list F32.float) (s0 : F32.float) (S0 j : Z),
  0 <= j -> j + Z.of_nat (List.length cs) <= n ->
  n * (2 * C + delta) < 2 * 2 ^ (k - -149) ->
  Forall (small C) cs -> F32.wf s0 = true ->
  2 * Z.abs (F32.sval s0 - S0) <= j * delta -> Z.abs S0 <= j * C ->
  let s := fold_left F32.add cs s0 in
  F32.wf s = true /\
  2 * Z.abs (F32.sval s - (S0 + sumZ cs)) <= (j + Z.of_nat (List.length cs)) * delta /\
  Z.abs (S0 + sumZ cs) <= (j + Z.of_nat (List.length cs)) * C.
Proof.
  assert (Hd : 0 < delta) by (rewrite Hdelta; apply pow2_pos; lia).
  induction cs as [|c cs IH]; intros s0 S0 j Hj Hn Hsize Hall Hwf Herr Hsum; cbn [fold_left List.length].
  - change (sumZ []) with 0. rewrite Z.add_0_r. change (Z.of_nat 0) with 0. rewrite Z.add_0_r. auto.
  - change (sumZ (c :: cs)) with (F32.sval c + sumZ cs).
    inversion Hall as [|c' cs' [Hwc Hc] Hall']; subst c' cs'.
    cbn [List.length] in Hn. rewrite Nat2Z.inj_succ in *.
    assert (Hlen : 0 <= Z.of_nat (List.length cs)) by lia.
    assert (Hstep : (j + 1) * (2 * C + delta) <= n * (2 * C + delta))
      by (apply Z.mul_le_mono_nonneg_r; lia).
    assert (Hlt : Z.abs (F32.sval s0 + F32.sval c) < 2 ^ (k - -149)) by nia.
    destruct (add_spec s0 c k Hwf Hwc Hk Hlt) as [Hwf1 Herr1]. rewrite <- Hdelta in Herr1.
    specialize (IH (F32.add s0 c) (S0 + F32.sval c) (j + 1) ltac:(lia) ltac:(lia) Hsize Hall' Hwf1
                  ltac:(lia) ltac:(lia)).
    cbv zeta in IH. destruct IH as (H1 & H2 & H3).
    replace (S0 + (F32.sval c + sumZ cs)) with (S0 + F32.sval c + sumZ cs) by ring.
    replace (j + Z.succ (Z.of_nat (List.length cs))) with (j + 1 + Z.of_nat (List.length cs)) by lia.
    auto.
Qed.

Lemma of_Z_100 : F32.of_Z 100 = S754_finite false 13107200 (-17).
Proof. reflexivity. Qed.

Lemma average_error (cs : list F32.float) :
  List.length cs = 100%nat ->
  100 * (2 * C + delta) < 2 * 2 ^ (k - -149) ->
  2 * C + delta < 2 * 2 ^ (k2 - -149) ->
  Forall (small C) cs ->
  let a := F32.div (fold_left F32.add cs F32.zero) (F32.of_Z 100) in
  F32.wf a = true /\
  2 * Z.abs (100 * F32.sval a - sumZ cs) <= 100 * delta + 100 * 2 ^ (k2 - 24 - -149).
Proof.
  intros Hlen Hsize Hsize2 Hall a.
  assert (Hd : 0 < delta) by (rewrite Hdelta; apply pow2_pos; lia).
  destruct (fold_add_error 100 cs F32.zero 0 0 ltac:(lia) ltac:(lia) Hsize Hall eq_refl ltac:(simpl; lia) ltac:(simpl; lia))
    as (Hwf & Herr & Hsum).
  rewrite Hlen in *. change (0 + Z.of_nat 100) with 100 in *. rewrite Z.add_0_l in *.
  set (s := fold_left F32.add cs F32.zero) in *.
  subst a. rewrite of_Z_100.
  assert (Hlt : Z.abs (F32.sval s) * 2 ^ (- -17) < 13107200 * 2 ^ (k2 - -149)).
  { change (2 ^ (- -17)) with 131072. lia. }
  destruct (div_spec s 13107200 (-17) k2 Hwf ltac:(lia) Hk2 Hlt) as [Hwfa Herra].
  split; [assumption|].
  change (2 ^ (- -17)) with 131072 in Herra.
  set (a := F32.div s (S754_finite false 13107200 (-17))) in *.
  assert (Hp : 0 < 2 ^ (k2 - 24 - -149)) by (apply pow2_pos; lia).
  lia.
Qed.

End FoldError.

(** *** Values as rationals *)

Lemma unit149_Z : Z.pos F32.unit149 = 2 ^ 149.
Proof. reflexivity. Qed.

Lemma to_Q_sval (x : F32.float) :
  F32.wf x = true -> (F32.to_Q x == F32.sval x # F32.unit149)%Q.
Proof.
  intros Hwf. destruct x as [s|s| |s m e]; try discriminate Hwf; try reflexivity.
  pose proof (wf_finite _ _ _ Hwf) as He.
  assert (Hn : forall z, cond_Zopp s (Z.pos m * z) = cond_Zopp s (Z.pos m) * z)
    by (intros z; destruct s; cbn [cond_Zopp]; ring).
  destruct e as [|p|p]; unfold Qeq; cbn [F32.to_Q F32.sval Qnum Qden inject_Z];
    change F32.emin with (-149); rewrite unit149_Z, Hn.
  - change (0 - -149) with 149. ring.
  - replace (Z.pos p - -149) with (Z.pos p + 149) by lia.
    rewrite pow2_split by lia. ring.
  - rewrite Pos2Z.inj_pow.
    replace 149 with ((Z.neg p - -149) + Z.pos p) at 1 by lia.
    rewrite pow2_split by lia. ring.
Qed.

Lemma sumQ_sval (cs : list F32.float) :
  Forall (fun c => F32.wf c = true) cs ->
  (sumQ (map F32.to_Q cs) == sumZ cs # F32.unit149)%Q.
Proof.
  induction 1 as [|c cs Hc _ IH]; cbn [map sumQ fold_right].
  - reflexivity.
  - change (fold_right Qplus 0%Q (map F32.to_Q cs)) with (sumQ (map F32.to_Q cs)).
    rewrite IH, (to_Q_sval c Hc). change (sumZ (c :: cs)) with (F32.sval c + sumZ cs).
    unfold Qeq, Qplus. cbn [Qnum Qden]. rewrite Pos2Z.inj_mul. ring.
Qed.

Lemma Qabs_scaled (a S E : Z) :
  2 * Z.abs (100 * a - S) <= E ->
  (Qabs ((a # F32.unit149) - (S # F32.unit149) / 100) <= E # (200 * F32.unit149))%Q.
Proof.
  intros H.
  assert (Heq : ((a # F32.unit149) - (S # F32.unit149) / 100 == (100 * a - S) # (100 * F32.unit149))%Q).
  { unfold Qeq, Qminus, Qplus, Qopp, Qdiv, Qmult, Qinv. cbn [Qnum Qden].
    rewrite !Pos2Z.inj_mul. ring. }
  rewrite Heq. unfold Qabs, Qle. cbn [Qnum Qden]. rewrite !Pos2Z.inj_mul.
  pose proof (Pos2Z.is_pos F32.unit149). nia.
Qed.

(** ** The conversion, input by input *)

Lemma table_ok_spec (n : nat) : forall r,
  table_ok n r (convert_to_celsius r) = true ->
  forall j, 0 <= j < Z.of_nat n ->
  sample_ok (r + j) (convert_to_celsius (r + j)) (convert_to_celsius (r + j + 1)) = true.
Proof.
  induction n as [|n IH]; intros r H j Hj; [lia|].
  cbn [table_ok] in H. apply andb_prop in H. destruct H as [H0 Hrest].
  destruct (Z.eq_dec j 0) as [->|Hne].
  - rewrite Z.add_0_r. exact H0.
  - replace (r + j) with (r + 1 + (j - 1)) by lia.
    apply IH; [exact Hrest | lia].
Qed.

Lemma convert_table : table_ok (Z.to_nat 65536) 0 (convert_to_celsius 0) = true.
Proof. vm_cast_no_check (eq_refl true). Qed.

Lemma sample_facts (r : Z) :
  is_uint16 r = true ->
  sample_ok r (convert_to_celsius r) (convert_to_celsius (r + 1)) = true.
Proof.
  unfold is_uint16. intros H. apply andb_prop in H. destruct H as [H0 H1].
  apply Z.leb_le in H0. apply Z.ltb_lt in H1.
  apply (table_ok_spec _ 0 convert_table r). lia.
Qed.

(** ** Invariants of the main loop *)

Ltac simpl_state :=
  unfold history in *;
  cbn [timer_fired adc_buffer pc dma_chan cfg avg_temp timer_active adc_running
       dma_config dma_remaining dma_write_index trace
       set_timer_fired set_timer_active set_adc_buffer set_avg_temp set_adc_running
       set_dma goto alarm_callback fst snd] in *.


Lemma history_goto l es st : history (goto l es st) = history st ++ es.
Proof. unfold history, goto; cbn [trace]. rewrite rev_app_distr, rev_involutive. reflexivity. Qed.

Lemma write_at_length i v l : List.length (write_at i v l) = List.length l.
Proof. revert i; induction l as [|x l IH]; intros [|i]; cbn [write_at List.length]; auto. Qed.

Lemma filter_read_events : filter is_acquisition read_events = read_events.
Proof. reflexivity. Qed.

Lemma concat_repeat_snoc {A} (c : list A) n : concat (repeat c n) ++ c = concat (repeat c (S n)).
Proof.
  induction n as [|n IH]; cbn [repeat concat].
  - rewrite app_nil_r. reflexivity.
  - rewrite <- app_assoc, IH. reflexivity.
Qed.

Lemma invariant_init chan dflt buf0 : invariant chan dflt (List.length buf0) (main_init chan dflt buf0).
Proof.
  constructor; cbn; try reflexivity; try lia; try discriminate.
  - intros [H|H]; discriminate H.
  - exists 0%nat. reflexivity.
  - unfold event_ok. repeat constructor.
Qed.

Lemma filter_history {A} (f : A -> bool) es tr :
  filter f (rev (rev es ++ tr)) = filter f (rev tr) ++ filter f es.
Proof. rewrite rev_app_distr, rev_involutive, filter_app. reflexivity. Qed.

Lemma invariant_tick chan dflt len st : invariant chan dflt len st -> invariant chan dflt len (tick st).
Proof.
  intros I. unfold tick. rewrite (inv_timer _ _ _ _ I).
  destruct st; destruct I; simpl_state; constructor; simpl_state; solve [assumption | reflexivity].
Qed.

Lemma invariant_dma chan dflt len v st : invariant chan dflt len st -> invariant chan dflt len (dma_transfer v st).
Proof.
  intros I. unfold dma_transfer.
  destruct (adc_running st && (0 <? dma_remaining st)) eqn:E; [|assumption].
  apply andb_prop in E. destruct E as [Ha Hr]. apply Z.ltb_lt in Hr.
  pose proof (inv_dma_busy _ _ _ _ I Hr) as Hpc.
  pose proof (inv_dma_cfg _ _ _ _ I Hpc) as Hcfg.
  pose proof (inv_index _ _ _ _ I Hpc) as Hidx.
  pose proof I as I'.
  destruct st as [tf buf l ch c avg ta ar dc dr di tr]; destruct I; simpl_state.
  constructor; simpl_state; try assumption; try lia; try (intros _; assumption).
  - rewrite write_at_length. assumption.
  - intros _. subst dc. cbn [main_cfg channel_config_set_dreq channel_config_set_write_increment write_increment]. lia.
  - destruct inv_order0 as [n Hn]. exists n. rewrite filter_history, Hn. cbn [filter is_acquisition]. apply app_nil_r.
  - rewrite filter_history, inv_registered0. reflexivity.
  - cbn [rev app]. constructor; [exact I|assumption].
Qed.

Lemma firstn_cycle chan c : firstn 107 (cycle_events chan c) = cycle_events chan c.
Proof. reflexivity. Qed.

Ltac order_goal n Hn :=
  exists n; rewrite filter_history, Hn, <- app_assoc; f_equal.

Lemma invariant_main chan dflt len st : invariant chan dflt len st -> invariant chan dflt len (main_step st).
Proof.
  intros I.
  destruct st as [tf buf l ch c avg ta ar dc dr di tr]; destruct I; simpl_state.
  unfold main_step; cbn [pc timer_fired dma_remaining dma_chan cfg avg_temp adc_buffer]. subst ch c.
  destruct inv_order0 as [n Hn].
  assert (Hbusy : forall l', l <> L_dma_wait -> 0 < dr -> l' = L_dma_wait)
    by (intros l' Hne Hdr; elim Hne; auto).
  destruct l; try destruct tf; try destruct (Z.eqb_spec dr 0);
    try (constructor; simpl_state;
      try solve [assumption | reflexivity | lia | intros H; discriminate H
                | intros [H|H]; discriminate H
                | apply Hbusy; discriminate
                | intros; auto
                | rewrite filter_history, inv_registered0; reflexivity
                | order_goal n Hn; reflexivity
                | apply Forall_app; split; [repeat constructor | assumption]
                | exists n; exact Hn ]).
  all: exists (S n); rewrite filter_history, Hn; cbn [progress]; rewrite firstn_cycle;
    cbn [filter display_temperature is_acquisition firstn]; rewrite !app_nil_r;
    apply concat_repeat_snoc.
Qed.

Theorem invariant_run chan dflt buf0 sched :
  invariant chan dflt (List.length buf0) (run sched (main_init chan dflt buf0)).
Proof.
  unfold run. rewrite <- fold_left_rev_right.
  induction (rev sched) as [|a l IH]; cbn [fold_right].
  - apply invariant_init.
  - destruct a; cbn [step].
    + apply invariant_main, IH.
    + apply invariant_tick, IH.
    + apply invariant_dma, IH.
Qed.

(** *** Coalescing of timer firings *)

Lemma run_app l1 l2 st : run (l1 ++ l2) st = run l2 (run l1 st).
Proof. apply fold_left_app. Qed.

Lemma samplings_goto l es st :
  samplings (goto l es st) = (samplings st + List.length (filter is_drain es))%nat.
Proof.
  unfold samplings, goto; cbn [trace].
  rewrite filter_app, length_app, filter_rev, length_rev. lia.
Qed.

Lemma filter_drain_reads : filter is_drain read_events = [].
Proof. reflexivity. Qed.

Lemma quiet_main st : quiet st -> quiet (main_step st) /\ samplings (main_step st) = samplings st.
Proof.
  intros (Hf & Hc & Hd).
  destruct st as [tf buf l ch c avg ta ar dc dr di tr]; simpl_state. subst tf.
  unfold main_step, quiet; cbn [pc timer_fired dma_remaining dma_chan cfg avg_temp adc_buffer].
  destruct l; try congruence; try destruct (dr =? 0);
    rewrite ?samplings_goto; simpl_state; cbn [filter is_drain display_temperature List.length];
    rewrite ?filter_drain_reads; cbn [List.length]; unfold samplings; simpl_state;
    (split; [repeat split; congruence | lia]).
Qed.

Lemma quiet_dma v st : quiet st -> quiet (dma_transfer v st) /\ samplings (dma_transfer v st) = samplings st.
Proof.
  intros Hq. unfold dma_transfer.
  destruct (adc_running st && (0 <? dma_remaining st)); [|auto].
  destruct st as [tf buf l ch c avg ta ar dc dr di tr]; unfold quiet in *; simpl_state.
  rewrite samplings_goto. cbn [filter is_drain List.length]. split; [assumption|].
  unfold samplings; simpl_state. lia.
Qed.

Lemma quiet_run sched : forall st,
  tick_free sched = true -> quiet st -> samplings (run sched st) = samplings st.
Proof.
  induction sched as [|a sched IH]; intros st Hfree Hq; [reflexivity|].
  cbn [tick_free forallb] in Hfree. apply andb_prop in Hfree. destruct Hfree as [Ha Hfree].
  change (run (a :: sched) st) with (run sched (step a st)).
  destruct a; cbn [is_tick negb] in Ha; try discriminate; cbn [step].
  - destruct (quiet_main st Hq) as [Hq' Hs]. rewrite (IH _ Hfree Hq'). exact Hs.
  - destruct (quiet_dma sample st Hq) as [Hq' Hs]. rewrite (IH _ Hfree Hq'). exact Hs.
Qed.

Lemma tick_active st : timer_active st = true -> tick st = set_timer_active true (set_timer_fired true st).
Proof. intros H. unfold tick. rewrite H. reflexivity. Qed.

Lemma tick_idempotent st : timer_active st = true -> tick (tick st) = tick st.
Proof.
  intros Ha. rewrite (tick_active st Ha). destruct st; reflexivity.
Qed.

Lemma tick_stays_active st : timer_active st = true -> timer_active (tick st) = true.
Proof.
  intros Ha. rewrite (tick_active st Ha). destruct st; reflexivity.
Qed.

Lemma ticks_coalesce n : forall st,
  timer_active st = true -> (1 <= n)%nat -> run (repeat A_tick n) st = tick st.
Proof.
  destruct n as [|n]; [intros; lia|].
  induction n as [|n IH]; intros st Ha _.
  - reflexivity.
  - change (run (repeat A_tick (S (S n))) st) with (run (repeat A_tick (S n)) (tick st)).
    rewrite IH by (try apply tick_stays_active; auto; lia).
    apply tick_idempotent, Ha.
Qed.

Lemma main_step_keeps_flag st : timer_fired (main_step st) = true -> timer_fired st = true.
Proof.
  destruct st as [tf buf l ch c avg ta ar dc dr di tr]. unfold main_step; simpl_state.
  destruct l; try destruct tf; try destruct (dr =? 0); simpl_state; auto.
Qed.

Lemma main_step_buffer st : adc_buffer (main_step st) = adc_buffer st.
Proof.
  destruct st as [tf buf l ch c avg ta ar dc dr di tr]. unfold main_step; simpl_state.
  destruct l; try destruct tf; try destruct (dr =? 0); reflexivity.
Qed.

(** *** The DMA burst *)

Lemma write_at_app (done rest : list Z) (x v : Z) :
  write_at (List.length done) v (done ++ x :: rest) = done ++ v :: rest.
Proof.
  induction done as [|d done IH]; cbn [List.length app write_at]; [reflexivity|].
  rewrite IH. reflexivity.
Qed.

Lemma dma_burst (samples : list Z) : forall (done rest : list Z) (st : state),
  adc_running st = true ->
  transfer_data_size (dma_config st) = DMA_SIZE_16 ->
  write_increment (dma_config st) = true ->
  adc_buffer st = done ++ rest ->
  dma_write_index st = Z.of_nat (List.length done) ->
  dma_remaining st = Z.of_nat (List.length samples) ->
  List.length rest = List.length samples ->
  let st' := run (map A_dma samples) st in
  adc_buffer st' = done ++ map mask16 samples /\ dma_remaining st' = 0 /\ pc st' = pc st.
Proof.
  induction samples as [|v samples IH]; intros done rest st Hrun Hsz Hinc Hbuf Hidx Hrem Hlen.
  - destruct rest; [|discriminate Hlen]. cbn. rewrite Hbuf. auto.
  - destruct rest as [|x rest]; [discriminate Hlen|].
    cbn [map]. change (run (A_dma v :: map A_dma samples) st) with (run (map A_dma samples) (dma_transfer v st)).
    assert (Hstep : dma_transfer v st =
              goto (pc st) [E_dma_write (dma_write_index st) (mask16 v)]
                (set_dma (dma_config st) (dma_remaining st - 1) (dma_write_index st + 1)
                   (set_adc_buffer ((done ++ [mask16 v]) ++ rest) st))).
    { unfold dma_transfer. rewrite Hrun, Hrem. cbn [List.length].
      replace (0 <? Z.of_nat (S (List.length samples))) with true by (symmetry; apply Z.ltb_lt; lia).
      cbn [andb]. rewrite Hsz, Hinc, Hidx, Hbuf, Nat2Z.id, write_at_app, <- app_assoc. reflexivity. }
    rewrite Hstep.
    specialize (IH (done ++ [mask16 v]) rest
                  (goto (pc st) [E_dma_write (dma_write_index st) (mask16 v)]
                     (set_dma (dma_config st) (dma_remaining st - 1) (dma_write_index st + 1)
                        (set_adc_buffer ((done ++ [mask16 v]) ++ rest) st)))).
    destruct st as [tf buf l ch c avg ta ar dc dr di tr]; simpl_state.
    cbn [List.length] in *. rewrite length_app in IH. cbn [List.length] in IH.
    destruct IH as (H1 & H2 & H3); try assumption; try lia; try reflexivity.
    cbv zeta. rewrite H1, <- app_assoc. auto.
Qed.

Lemma configure_then_burst chan dflt st samples :
  invariant chan dflt 100 st -> pc st = L_dma_configure -> List.length samples = 100%nat ->
  let st' := run (A_main :: map A_dma samples) st in
  adc_buffer st' = map mask16 samples /\ dma_remaining st' = 0 /\ pc st' = L_dma_wait.
Proof.
  intros I Hpc Hlen.
  change (run (A_main :: map A_dma samples) st) with (run (map A_dma samples) (main_step st)).
  pose proof (inv_adc _ _ _ _ I (or_introl Hpc)) as Hadc.
  pose proof (inv_cfg _ _ _ _ I) as Hcfg.
  pose proof (inv_len _ _ _ _ I) as Hbl.
  destruct st as [tf buf l ch c avg ta ar dc dr di tr]; simpl_state. subst l c ar.
  unfold main_step; simpl_state.
  apply (dma_burst samples [] buf); simpl_state; try reflexivity; try lia.
  rewrite Hlen. reflexivity.
Qed.

(** ** Consequences of the table *)

Lemma valid_wf (x : F32.float) : F32.valid x = true -> F32.wf x = true.
Proof.
  intros H. destruct x as [s|s| |s m e]; [reflexivity | discriminate H | discriminate H | ].
  destruct (valid_finite_bounds _ _ _ H) as (He & _).
  cbn [F32.wf]. unfold F32.emin, F32.emax, F32.prec.
    apply andb_true_intro; split; apply Z.leb_le; lia.
Qed.

Lemma sample_facts_unpack (r : Z) : is_uint16 r = true -> sample_facts_of r.
Proof.
  intros Hr. pose proof (sample_facts r Hr) as H. unfold sample_ok in H.
  rewrite !andb_true_iff in H. destruct H as (((((Hv & Hl) & Hs) & Hb) & Hq) & Hn).
  constructor; try assumption.
  - apply Z.ltb_lt. assumption.
  - apply Z.leb_le. assumption.
  - apply Qle_bool_iff. assumption.
  - intros Hlt. apply orb_prop in Hn. destruct Hn as [Hn|Hn].
    + apply Z.leb_le in Hn. lia.
    + apply andb_prop in Hn. destruct Hn as [Ha Hc].
      split; [apply Z.leb_le; assumption | apply Qle_bool_iff; assumption].
Qed.

Lemma is_uint16_range (r : Z) : is_uint16 r = true <-> 0 <= r < 65536.
Proof.
  unfold is_uint16. rewrite andb_true_iff, Z.leb_le, Z.ltb_lt. reflexivity.
Qed.

Lemma is_nominal_range (r : Z) : is_nominal r = true <-> 0 <= r < 4096.
Proof.
  unfold is_nominal. rewrite andb_true_iff, Z.leb_le, Z.ltb_lt. reflexivity.
Qed.

(** *** The conversion decreases *)

Lemma sval_decreasing (n : nat) : forall r,
  0 <= r -> r + 1 + Z.of_nat n < 65536 ->
  F32.sval (convert_to_celsius (r + 1 + Z.of_nat n)) < F32.sval (convert_to_celsius r).
Proof.
  induction n as [|n IH]; intros r H0 H1.
  - change (Z.of_nat 0) with 0. rewrite Z.add_0_r.
    apply sample_facts_unpack, is_uint16_range. lia.
  - replace (r + 1 + Z.of_nat (S n)) with (r + 1 + Z.of_nat n + 1) in * by lia.
    apply Z.lt_trans with (F32.sval (convert_to_celsius (r + 1 + Z.of_nat n))).
    + apply sample_facts_unpack, is_uint16_range. lia.
    + apply IH; lia.
Qed.

Lemma to_Q_lt (x y : F32.float) :
  F32.wf x = true -> F32.wf y = true -> F32.sval x < F32.sval y ->
  (F32.to_Q x < F32.to_Q y)%Q.
Proof.
  intros Hx Hy Hlt. rewrite (to_Q_sval x Hx), (to_Q_sval y Hy).
  unfold Qlt. cbn [Qnum Qden]. apply Z.mul_lt_mono_pos_r; [reflexivity|assumption].
Qed.

(** *** The loop is the fold *)

Lemma skipn_nth (l : list Z) : forall k, (k < List.length l)%nat ->
  skipn k l = nth k l 0 :: skipn (S k) l.
Proof.
  induction l as [|x l IH]; intros k Hk; cbn [List.length] in Hk; [lia|].
  destruct k as [|k]; [reflexivity|].
  cbn [skipn nth]. apply IH. lia.
Qed.

Lemma sum_loop_fold (buf : list Z) (n : nat) : forall i s,
  0 <= i -> (Z.to_nat i + n <= List.length buf)%nat ->
  sum_loop buf n i s
  = fold_left F32.add (map convert_to_celsius (firstn n (skipn (Z.to_nat i) buf))) s.
Proof.
  induction n as [|n IH]; intros i s Hi Hlen; cbn [sum_loop]; [reflexivity|].
  rewrite IH by lia.
  rewrite (skipn_nth buf (Z.to_nat i)) by lia.
  cbn [firstn map fold_left].
  replace (Z.to_nat (i + 1)) with (S (Z.to_nat i)) by lia. reflexivity.
Qed.

Lemma average_temperature_spec (buf : list Z) :
  List.length buf = 100%nat -> average_temperature buf = average_spec buf.
Proof.
  intros Hlen. unfold average_temperature, average_spec.
  rewrite sum_loop_fold by (change (Z.to_nat NUM_SAMPLES) with 100%nat; cbn; lia).
  change (Z.to_nat 0) with 0%nat. cbn [skipn].
  change (Z.to_nat NUM_SAMPLES) with 100%nat.
  rewrite <- Hlen at 1. rewrite firstn_all, Hlen. reflexivity.
Qed.

(** ** The error of the average *)

Lemma valid_buffer_spec (buf : list Z) :
  valid_buffer buf = true <->
  List.length buf = 100%nat /\ forall r, In r buf -> is_uint16 r = true.
Proof.
  unfold valid_buffer. rewrite andb_true_iff, Nat.eqb_eq, forallb_forall. reflexivity.
Qed.

Lemma nominal_buffer_spec (buf : list Z) :
  nominal_buffer buf = true <->
  List.length buf = 100%nat /\ forall r, In r buf -> is_nominal r = true.
Proof.
  unfold nominal_buffer. rewrite andb_true_iff, Nat.eqb_eq, forallb_forall. reflexivity.
Qed.

Lemma is_nominal_uint16 (r : Z) : is_nominal r = true -> is_uint16 r = true.
Proof. rewrite is_nominal_range, is_uint16_range. lia. Qed.

Lemma nominal_buffer_valid (buf : list Z) : nominal_buffer buf = true -> valid_buffer buf = true.
Proof.
  rewrite nominal_buffer_spec, valid_buffer_spec. intros [Hl H]. split; [assumption|].
  intros r Hr. apply is_nominal_uint16, H, Hr.
Qed.

Lemma temperatures_map (buf : list Z) :
  temperatures buf = map F32.to_Q (map convert_to_celsius buf).
Proof. unfold temperatures. rewrite map_map. reflexivity. Qed.

Lemma average_close (C k k2 : Z) (eps : Q) (buf : list Z) :
  -125 <= k <= 127 -> -125 <= k2 <= 127 -> 0 <= C ->
  100 * (2 * C + 2 ^ (k - 24 - -149)) < 2 * 2 ^ (k - -149) ->
  2 * C + 2 ^ (k - 24 - -149) < 2 * 2 ^ (k2 - -149) ->
  ((100 * 2 ^ (k - 24 - -149) + 100 * 2 ^ (k2 - 24 - -149)) # (200 * F32.unit149) <= eps)%Q ->
  List.length buf = 100%nat ->
  (forall r, In r buf -> small C (convert_to_celsius r)) ->
  F32.wf (average_temperature buf) = true /\
  (Qabs (F32.to_Q (average_temperature buf) - mean_exact buf) <= eps)%Q.
Proof.
  intros Hk Hk2 HC Hsize Hsize2 Heps Hlen Hall.
  rewrite (average_temperature_spec buf Hlen).
  unfold average_spec, mean_exact. rewrite Hlen, temperatures_map.
  change (Z.of_nat 100) with 100.
  set (cs := map convert_to_celsius buf).
  assert (Hcs : Forall (small C) cs).
  { apply Forall_forall. intros c Hc. apply in_map_iff in Hc.
    destruct Hc as (r & <- & Hr). apply Hall, Hr. }
  assert (Hlcs : List.length cs = 100%nat) by (unfold cs; rewrite length_map; exact Hlen).
  destruct (average_error C k k2 _ eq_refl Hk Hk2 HC cs Hlcs Hsize Hsize2 Hcs) as [Hwf Herr].
  split; [exact Hwf|].
  rewrite (to_Q_sval _ Hwf).
  rewrite (sumQ_sval cs) by (eapply Forall_impl; [|exact Hcs]; intros c [Hc _]; exact Hc).
  eapply Qle_trans; [apply Qabs_scaled; exact Herr | exact Heps].
Qed.

Lemma small16 (r : Z) : is_uint16 r = true -> small bound16 (convert_to_celsius r).
Proof.
  intros Hr. pose proof (sample_facts_unpack r Hr) as F.
  split; [apply valid_wf, (sf_valid r F) | apply (sf_bound r F)].
Qed.

Lemma small12 (r : Z) : is_nominal r = true -> small bound12 (convert_to_celsius r).
Proof.
  intros Hr. pose proof (sample_facts_unpack r (is_nominal_uint16 r Hr)) as F.
  apply is_nominal_range in Hr.
  split; [apply valid_wf, (sf_valid r F) | apply (sf_nominal r F); lia].
Qed.

Lemma average_close16 (buf : list Z) :
  valid_buffer buf = true ->
  F32.wf (average_temperature buf) = true /\
  (Qabs (F32.to_Q (average_temperature buf) - mean_exact buf) <= 129 # 1024)%Q.
Proof.
  intros H. apply valid_buffer_spec in H. destruct H as [Hlen Hall].
  apply (average_close bound16 22 15); try assumption; try (intros r Hr; apply small16, Hall, Hr).
  all: try (vm_compute; intuition discriminate).
Qed.

Lemma average_close12 (buf : list Z) :
  nominal_buffer buf = true ->
  F32.wf (average_temperature buf) = true /\
  (Qabs (F32.to_Q (average_temperature buf) - mean_exact buf) <= 129 # 16384)%Q.
Proof.
  intros H. apply nominal_buffer_spec in H. destruct H as [Hlen Hall].
  apply (average_close bound12 18 11); try assumption; try (intros r Hr; apply small12, Hall, Hr).
  all: try (vm_compute; intuition discriminate).
Qed.

(** *** Means, minima and maxima of lists of rationals *)

Lemma sumQ_repeat (x : Q) (n : nat) :
  (sumQ (repeat x n) == inject_Z (Z.of_nat n) * x)%Q.
Proof.
  induction n as [|n IH].
  - cbn. ring.
  - change (sumQ (repeat x (S n))) with (x + sumQ (repeat x n))%Q.
    rewrite IH, Nat2Z.inj_succ. unfold Z.succ. rewrite inject_Z_plus. ring.
Qed.

Lemma sumQ_cons (x : Q) (l : list Q) : sumQ (x :: l) = (x + sumQ l)%Q.
Proof. reflexivity. Qed.

Lemma sumQ_app (l1 l2 : list Q) : (sumQ (l1 ++ l2) == sumQ l1 + sumQ l2)%Q.
Proof.
  induction l1 as [|x l1 IH].
  - change (sumQ ([] ++ l2)) with (sumQ l2). change (sumQ []) with 0%Q. ring.
  - change (sumQ ((x :: l1) ++ l2)) with (x + sumQ (l1 ++ l2))%Q.
    rewrite sumQ_cons, IH. ring.
Qed.

Lemma sumQ_pairs (x y : Q) (n : nat) :
  (sumQ (concat (repeat [x; y] n)) == inject_Z (Z.of_nat n) * (x + y))%Q.
Proof.
  induction n as [|n IH].
  - cbn. ring.
  - cbn [repeat concat]. rewrite sumQ_app, IH, Nat2Z.inj_succ. unfold Z.succ.
    rewrite inject_Z_plus, !sumQ_cons. change (sumQ []) with 0%Q. ring.
Qed.

Lemma mean_exact_repeat (r : Z) :
  (mean_exact (repeat r 100) == F32.to_Q (convert_to_celsius r))%Q.
Proof.
  unfold mean_exact, temperatures. rewrite map_repeat, repeat_length, sumQ_repeat.
  change (inject_Z (Z.of_nat 100)) with 100%Q. field.
Qed.

Lemma temperatures_alternate (r1 r2 : Z) :
  temperatures (alternate r1 r2)
  = concat (repeat [F32.to_Q (convert_to_celsius r1); F32.to_Q (convert_to_celsius r2)] 50).
Proof.
  unfold temperatures, alternate. rewrite concat_map, map_repeat. reflexivity.
Qed.

Lemma alternate_length (r1 r2 : Z) : List.length (alternate r1 r2) = 100%nat.
Proof. reflexivity. Qed.

Lemma mean_exact_alternate (r1 r2 : Z) :
  (mean_exact (alternate r1 r2)
   == (F32.to_Q (convert_to_celsius r1) + F32.to_Q (convert_to_celsius r2)) / 2)%Q.
Proof.
  unfold mean_exact. rewrite temperatures_alternate, alternate_length, sumQ_pairs.
  change (inject_Z (Z.of_nat 100)) with 100%Q. change (inject_Z (Z.of_nat 50)) with 50%Q.
  field.
Qed.

Lemma fold_Qmin_le (l : list Q) : forall x,
  (fold_left Qmin l x <= x)%Q /\ (forall y, In y l -> (fold_left Qmin l x <= y)%Q).
Proof.
  induction l as [|z l IH]; intros x; cbn [fold_left].
  - split; [apply Qle_refl | intros y []].
  - destruct (IH (Qmin x z)) as [H1 H2]. split.
    + eapply Qle_trans; [exact H1 | apply Q.le_min_l].
    + intros y [<-|Hy]; [|apply H2, Hy].
      eapply Qle_trans; [exact H1 | apply Q.le_min_r].
Qed.

Lemma fold_Qmax_ge (l : list Q) : forall x,
  (x <= fold_left Qmax l x)%Q /\ (forall y, In y l -> (y <= fold_left Qmax l x)%Q).
Proof.
  induction l as [|z l IH]; intros x; cbn [fold_left].
  - split; [apply Qle_refl | intros y []].
  - destruct (IH (Qmax x z)) as [H1 H2]. split.
    + eapply Qle_trans; [apply Q.le_max_l | exact H1].
    + intros y [<-|Hy]; [|apply H2, Hy].
      eapply Qle_trans; [apply Q.le_max_r | exact H1].
Qed.

Lemma Qlist_min_max (l : list Q) (y : Q) :
  In y l -> (Qlist_min l <= y <= Qlist_max l)%Q.
Proof.
  destruct l as [|x l]; [intros []|]. cbn [Qlist_min Qlist_max].
  destruct (fold_Qmin_le l x) as [H1 H2]. destruct (fold_Qmax_ge l x) as [H3 H4].
  intros [<-|Hy]; split; auto.
Qed.

Lemma sumQ_bounds (lo hi : Q) (l : list Q) :
  (forall y, In y l -> lo <= y <= hi)%Q ->
  (inject_Z (Z.of_nat (List.length l)) * lo <= sumQ l
   /\ sumQ l <= inject_Z (Z.of_nat (List.length l)) * hi)%Q.
Proof.
  induction l as [|x l IH]; intros H.
  - cbn. split; ring_simplify; apply Qle_refl.
  - destruct IH as [IH1 IH2]; [intros y Hy; apply H; right; exact Hy|].
    destruct (H x (or_introl eq_refl)) as [Hx1 Hx2].
    change (sumQ (x :: l)) with (x + sumQ l)%Q.
    cbn [List.length]. rewrite Nat2Z.inj_succ. unfold Z.succ. rewrite inject_Z_plus.
    split.
    + setoid_replace ((inject_Z (Z.of_nat (List.length l)) + inject_Z 1) * lo)%Q
        with (lo + inject_Z (Z.of_nat (List.length l)) * lo)%Q by ring.
      apply Qplus_le_compat; assumption.
    + setoid_replace ((inject_Z (Z.of_nat (List.length l)) + inject_Z 1) * hi)%Q
        with (hi + inject_Z (Z.of_nat (List.length l)) * hi)%Q by ring.
      apply Qplus_le_compat; assumption.
Qed.

Lemma temperatures_length (buf : list Z) : List.length (temperatures buf) = List.length buf.
Proof. apply length_map. Qed.

Lemma mean_exact_between (buf : list Z) :
  List.length buf = 100%nat ->
  (Qlist_min (temperatures buf) <= mean_exact buf <= Qlist_max (temperatures buf))%Q.
Proof.
  intros Hlen. unfold mean_exact. rewrite Hlen. change (inject_Z (Z.of_nat 100)) with 100%Q.
  destruct (sumQ_bounds (Qlist_min (temperatures buf)) (Qlist_max (temperatures buf))
              (temperatures buf) (Qlist_min_max (temperatures buf))) as [H1 H2].
  rewrite temperatures_length, Hlen in H1, H2.
  change (inject_Z (Z.of_nat 100)) with 100%Q in H1, H2.
  split.
  - apply Qle_shift_div_l; [reflexivity|]. rewrite Qmult_comm. exact H1.
  - apply Qle_shift_div_r; [reflexivity|]. rewrite Qmult_comm. exact H2.
Qed.

Lemma Qabs_diff_bounds (x m lo hi eps : Q) :
  (Qabs (x - m) <= eps -> lo <= m <= hi -> lo - eps <= x <= hi + eps)%Q.
Proof.
  intros H [Hlo Hhi]. apply Qabs_Qle_condition in H. destruct H as [H1 H2].
  split.
  - apply Qplus_le_l with (z := eps). ring_simplify.
    apply Qle_trans with m; [exact Hlo|].
    apply Qplus_le_l with (z := (- m - eps)%Q). ring_simplify.
    setoid_replace (x - m)%Q with (-1 * m + x)%Q in H1 by ring.
    setoid_replace (- eps)%Q with (-1 * eps)%Q in H1 by ring. exact H1.
  - apply Qle_trans with (m + eps)%Q; [|apply Qplus_le_l; exact Hhi].
    apply Qplus_le_l with (z := (- m)%Q). ring_simplify.
    setoid_replace (x - m)%Q with (x - 1 * m)%Q in H2 by ring. 
    setoid_replace (x + (-1 # 1) * m)%Q with (x - 1 * m)%Q by ring. exact H2.
Qed.

(** ** Further invariants of the main loop *)

(** *** States, field by field *)

Lemma state_ext (s1 s2 : state) :
  timer_fired s1 = timer_fired s2 -> adc_buffer s1 = adc_buffer s2 -> pc s1 = pc s2 ->
  dma_chan s1 = dma_chan s2 -> cfg s1 = cfg s2 -> avg_temp s1 = avg_temp s2 ->
  timer_active s1 = timer_active s2 -> adc_running s1 = adc_running s2 ->
  dma_config s1 = dma_config s2 -> dma_remaining s1 = dma_remaining s2 ->
  dma_write_index s1 = dma_write_index s2 -> trace s1 = trace s2 ->
  s1 = s2.
Proof.
  destruct s1, s2; cbn [timer_fired adc_buffer pc dma_chan cfg avg_temp timer_active
                        adc_running dma_config dma_remaining dma_write_index trace].
  intros; subst; reflexivity.
Qed.

Ltac project_state :=
  cbn [timer_fired adc_buffer pc dma_chan cfg avg_temp timer_active adc_running
       dma_config dma_remaining dma_write_index trace
       set_timer_fired set_timer_active set_adc_buffer set_avg_temp set_adc_running
       set_dma goto].

(** *** The buffer and the output *)

Lemma mask16_uint16 (v : Z) : is_uint16 (mask16 v) = true.
Proof.
  unfold mask16. rewrite Z.land_ones by lia. apply is_uint16_range.
  change (2 ^ 16) with 65536. apply Z.mod_pos_bound. lia.
Qed.

Lemma forallb_write_at (i : nat) (v : Z) (l : list Z) :
  is_uint16 v = true -> forallb is_uint16 l = true ->
  forallb is_uint16 (write_at i v l) = true.
Proof.
  intros Hv. revert i. induction l as [|x l IH]; intros i H; [destruct i; reflexivity|].
  cbn [forallb] in H. apply andb_prop in H. destruct H as [Hx Hl].
  destruct i as [|i]; cbn [write_at forallb].
  - rewrite Hv, Hl. reflexivity.
  - rewrite Hx, (IH i Hl). reflexivity.
Qed.

Lemma valid_buffer_write_at (i : nat) (v : Z) (buf : list Z) :
  is_uint16 v = true -> valid_buffer buf = true -> valid_buffer (write_at i v buf) = true.
Proof.
  unfold valid_buffer. intros Hv H. apply andb_prop in H. destruct H as [Hl Hf].
  rewrite write_at_length, Hl. apply forallb_write_at; assumption.
Qed.

Lemma output_invariant_init chan dflt buf0 :
  valid_buffer buf0 = true -> output_invariant (main_init chan dflt buf0).
Proof.
  intros Hb. constructor; cbn [main_init adc_buffer dma_remaining pc avg_temp adc_running trace];
    try assumption; try reflexivity; try lia.
  - intros [H|H]; discriminate H.
  - apply Forall_rev. unfold init_events, dma_write_ok. repeat constructor.
  - exists []. split; [constructor|]. reflexivity.
Qed.

Lemma output_invariant_tick st : output_invariant st -> output_invariant (tick st).
Proof.
  intros O. unfold tick. destruct (timer_active st); [|assumption].
  destruct st; destruct O; simpl_state; constructor; simpl_state; assumption.
Qed.

Lemma output_invariant_dma chan dflt v st :
  invariant chan dflt 100 st -> output_invariant st -> output_invariant (dma_transfer v st).
Proof.
  intros I O. unfold dma_transfer.
  destruct (adc_running st && (0 <? dma_remaining st)) eqn:E; [|assumption].
  apply andb_prop in E. destruct E as [Ha Hr]. apply Z.ltb_lt in Hr.
  pose proof (inv_dma_busy _ _ _ _ I Hr) as Hpc.
  pose proof (inv_dma_cfg _ _ _ _ I Hpc) as Hcfg.
  pose proof (inv_index _ _ _ _ I Hpc) as Hidx.
  destruct st as [tf buf l ch c avg ta ar dc dr di tr]; destruct O; simpl_state.
  subst l dc. cbn [main_cfg channel_config_set_dreq channel_config_set_write_increment
                   channel_config_set_read_increment channel_config_set_transfer_data_size
                   transfer_data_size write_increment dma_size_bits].
  fold (mask16 v).
  constructor; simpl_state; try assumption; try lia.
  - apply valid_buffer_write_at; [apply mask16_uint16 | assumption].
  - intros [H|H]; discriminate H.
  - cbn [rev app]. constructor; [|assumption]. split; [lia | apply mask16_uint16].
  - destruct oi_outputs0 as (vs & Hvs & Hout). exists vs. split; [assumption|].
    rewrite filter_history, Hout. cbn [filter is_output]. rewrite app_nil_r.
    unfold pending_output; simpl_state. reflexivity.
Qed.

Lemma flat_map_snoc {A B} (f : A -> list B) (l : list A) (x : A) :
  flat_map f (l ++ [x]) = flat_map f l ++ f x.
Proof. rewrite flat_map_app. cbn [flat_map]. rewrite app_nil_r. reflexivity. Qed.

Lemma filter_output_reads : filter is_output read_events = [].
Proof. reflexivity. Qed.

Lemma output_invariant_main st : output_invariant st -> output_invariant (main_step st).
Proof.
  intros O.
  destruct st as [tf buf l ch c avg ta ar dc dr di tr]; destruct O; simpl_state.
  unfold main_step; cbn [pc timer_fired dma_remaining dma_chan cfg avg_temp adc_buffer].
  destruct oi_outputs0 as (vs & Hvs & Hout). unfold pending_output in Hout; simpl_state.
  destruct l; try destruct tf; try destruct (Z.eqb_spec dr 0);
    try (constructor; unfold pending_output; simpl_state;
      try solve [assumption | reflexivity | lia | discriminate
                | intros [H|H]; discriminate H
                | intros _; reflexivity
                | intros _; apply oi_avg0; auto
                | apply Forall_app; split; [repeat constructor | assumption]
                | exists vs; split; [assumption | exact Hout]
                | exists vs; split; [assumption|];
                  rewrite filter_history, Hout; cbn [filter is_output];
                  rewrite ?filter_output_reads, ?app_nil_r; reflexivity ]).
  all: try (exists (vs ++ [avg]); split;
    [ apply Forall_app; split; [assumption|]; constructor; [|constructor];
      exists buf; split; [assumption | apply oi_avg0; auto]
    | rewrite filter_history, Hout, flat_map_snoc, <- app_assoc;
      cbn [filter is_output display_temperature shown app]; rewrite app_nil_r; reflexivity ]).
Qed.

Lemma output_invariant_run chan dflt buf0 sched :
  valid_buffer buf0 = true ->
  output_invariant (run sched (main_init chan dflt buf0)).
Proof.
  intros Hb.
  assert (Hlen : List.length buf0 = 100%nat) by (apply valid_buffer_spec in Hb; tauto).
  assert (H : invariant chan dflt 100 (run sched (main_init chan dflt buf0))
              /\ output_invariant (run sched (main_init chan dflt buf0))).
  { unfold run. rewrite <- fold_left_rev_right.
    induction (rev sched) as [|a l IH]; cbn [fold_right].
    - split; [rewrite <- Hlen; apply invariant_init | apply output_invariant_init, Hb].
    - destruct IH as [I O]. destruct a; cbn [step].
      + split; [apply invariant_main, I | apply output_invariant_main, O].
      + split; [apply invariant_tick, I | apply output_invariant_tick, O].
      + split; [apply invariant_dma, I | apply (output_invariant_dma chan dflt _ _ I O)]. }
  apply H.
Qed.

(** *** The ADC and the firings of the timer *)

Lemma adc_window_step (a : action) (st : state) :
  adc_running st = in_burst_window (pc st) ->
  adc_running (step a st) = in_burst_window (pc (step a st)).
Proof.
  intros H. destruct a as [| |v]; cbn [step].
  - destruct st as [tf buf l ch c avg ta ar dc dr di tr]; simpl_state.
    unfold main_step; simpl_state.
    destruct l; try destruct tf; try destruct (dr =? 0); simpl_state; solve [reflexivity | assumption].
  - unfold tick. destruct (timer_active st); [|assumption]. destruct st; simpl_state. assumption.
  - unfold dma_transfer. destruct (adc_running st && (0 <? dma_remaining st)); [|assumption].
    destruct st; simpl_state. assumption.
Qed.

Lemma credit_step (a : action) (st : state) :
  (samplings (step a st) + credit (step a st)
   <= samplings st + credit st + (if is_tick a then 1 else 0))%nat.
Proof.
  destruct a as [| |v]; cbn [step is_tick].
  - destruct st as [tf buf l ch c avg ta ar dc dr di tr].
    unfold main_step; simpl_state.
    destruct l; try destruct tf; try destruct (dr =? 0);
      rewrite ?samplings_goto; unfold samplings, credit; simpl_state;
      cbn [filter is_drain display_temperature List.length];
      rewrite ?filter_drain_reads; cbn [List.length]; lia.
  - unfold tick. destruct (timer_active st) eqn:Ha; [|lia].
    destruct st as [tf buf l ch c avg ta ar dc dr di tr].
    unfold samplings, credit; simpl_state. destruct l; destruct tf; lia.
  - unfold dma_transfer. destruct (adc_running st && (0 <? dma_remaining st)); [|lia].
    destruct st as [tf buf l ch c avg ta ar dc dr di tr].
    rewrite samplings_goto. unfold samplings, credit; simpl_state.
    cbn [filter is_drain List.length]. lia.
Qed.

Lemma credit_run (sched : list action) : forall st,
  (samplings (run sched st) + credit (run sched st)
   <= samplings st + credit st + ticks sched)%nat.
Proof.
  induction sched as [|a sched IH]; intros st.
  - cbn. lia.
  - change (run (a :: sched) st) with (run sched (step a st)).
    specialize (IH (step a st)). pose proof (credit_step a st) as Hs.
    unfold ticks in *. cbn [filter]. destruct (is_tick a); cbn [List.length]; lia.
Qed.

(** *** One whole cycle *)

Lemma dma_burst_state (samples : list Z) : forall (done rest : list Z) (st : state),
  adc_running st = true ->
  transfer_data_size (dma_config st) = DMA_SIZE_16 ->
  write_increment (dma_config st) = true ->
  adc_buffer st = done ++ rest ->
  dma_write_index st = Z.of_nat (List.length done) ->
  dma_remaining st = Z.of_nat (List.length samples) ->
  List.length rest = List.length samples ->
  run (map A_dma samples) st
  = goto (pc st) (dma_write_events (dma_write_index st) samples)
      (set_dma (dma_config st) 0 (dma_write_index st + Z.of_nat (List.length samples))
         (set_adc_buffer (done ++ map mask16 samples) st)).
Proof.
  induction samples as [|v samples IH]; intros done rest st Hrun Hsz Hinc Hbuf Hidx Hrem Hlen.
  - destruct rest; [|discriminate Hlen].
    destruct st as [tf buf l ch c avg ta ar dc dr di tr]; simpl_state.
    cbn [map run fold_left dma_write_events List.length rev app] in *.
    subst buf dr. rewrite Z.add_0_r. reflexivity.
  - destruct rest as [|x rest]; [discriminate Hlen|].
    cbn [map]. change (run (A_dma v :: map A_dma samples) st) with (run (map A_dma samples) (dma_transfer v st)).
    assert (Hstep : dma_transfer v st =
              goto (pc st) [E_dma_write (dma_write_index st) (mask16 v)]
                (set_dma (dma_config st) (dma_remaining st - 1) (dma_write_index st + 1)
                   (set_adc_buffer ((done ++ [mask16 v]) ++ rest) st))).
    { unfold dma_transfer. rewrite Hrun, Hrem. cbn [List.length].
      replace (0 <? Z.of_nat (S (List.length samples))) with true by (symmetry; apply Z.ltb_lt; lia).
      cbn [andb]. rewrite Hsz, Hinc, Hidx, Hbuf, Nat2Z.id, write_at_app, <- app_assoc. reflexivity. }
    rewrite Hstep.
    rewrite (IH (done ++ [mask16 v]) rest).
    + destruct st as [tf buf l ch c avg ta ar dc dr di tr]; simpl_state.
      cbn [List.length dma_write_events]. unfold goto, set_dma, set_adc_buffer; simpl_state.
      f_equal.
      * rewrite <- app_assoc. reflexivity.
      * lia.
      * cbn [rev]. rewrite <- !app_assoc. reflexivity.
    + destruct st; simpl_state; assumption.
    + destruct st; simpl_state; assumption.
    + destruct st; simpl_state; assumption.
    + destruct st; simpl_state; reflexivity.
    + destruct st; simpl_state. rewrite length_app. cbn [List.length]. lia.
    + destruct st; simpl_state. cbn [List.length] in Hrem. lia.
    + cbn [List.length] in Hlen. lia.
Qed.

Lemma start_cycle (st : state) :
  pc st = L_wait -> timer_active st = true ->
  run (A_tick :: repeat A_main 7) st
  = goto L_dma_wait
      [ E_adc_fifo_drain; E_adc_run false; E_adc_fifo_setup true true 1 false false;
        E_adc_run true;
        E_dma_channel_configure (dma_chan st) (cfg st) ADDR_adc_buffer ADDR_adc_hw_fifo 100 true ]
      (set_dma (cfg st) 100 0 (set_adc_running true (set_timer_fired false st))).
Proof.
  destruct st as [tf buf l ch c avg ta ar dc dr di tr]; cbn [pc timer_active].
  intros -> ->. reflexivity.
Qed.

Lemma main_step_dma_wait (st : state) :
  pc st = L_dma_wait -> dma_remaining st = 0 ->
  main_step st = goto L_stop2 [E_dma_channel_wait_for_finish_blocking (dma_chan st)] st.
Proof. unfold main_step. intros -> ->. reflexivity. Qed.

Lemma main_step_stop2 (st : state) :
  pc st = L_stop2 ->
  main_step st = goto L_average [E_adc_run false] (set_adc_running false st).
Proof. unfold main_step. intros ->. reflexivity. Qed.

Lemma main_step_average (st : state) :
  pc st = L_average ->
  main_step st
  = goto L_printf read_events (set_avg_temp (average_temperature (adc_buffer st)) st).
Proof. unfold main_step. intros ->. reflexivity. Qed.

Lemma main_step_printf (st : state) :
  pc st = L_printf ->
  main_step st = goto L_display [E_printf printf_format (avg_temp st)] st.
Proof. unfold main_step. intros ->. reflexivity. Qed.

Lemma main_step_display (st : state) :
  pc st = L_display ->
  main_step st = goto L_wait (display_temperature (avg_temp st)) st.
Proof. unfold main_step. intros ->. reflexivity. Qed.

Lemma finish_cycle (st : state) :
  pc st = L_dma_wait -> dma_remaining st = 0 ->
  run (repeat A_main 5) st
  = goto L_wait
      ([ E_dma_channel_wait_for_finish_blocking (dma_chan st); E_adc_run false ]
       ++ read_events
       ++ E_printf printf_format (average_temperature (adc_buffer st))
          :: display_temperature (average_temperature (adc_buffer st)))
      (set_adc_running false (set_avg_temp (average_temperature (adc_buffer st)) st)).
Proof.
  intros Hpc Hrem. cbn [repeat run fold_left step].
  rewrite (main_step_dma_wait st Hpc Hrem).
  rewrite (main_step_stop2 (goto L_stop2 _ _)) by reflexivity.
  rewrite (main_step_average (goto L_average _ _)) by reflexivity.
  rewrite (main_step_printf (goto L_printf _ _)) by reflexivity.
  rewrite (main_step_display (goto L_display _ _)) by reflexivity.
  apply state_ext; project_state; reflexivity.
Qed.

(** *** Bounds of the conversion and of the mean *)

Lemma convert_antitone (r1 r2 : Z) :
  is_uint16 r1 = true -> is_uint16 r2 = true -> r1 <= r2 ->
  (F32.to_Q (convert_to_celsius r2) <= F32.to_Q (convert_to_celsius r1))%Q.
Proof.
  intros H1 H2 Hle.
  destruct (Z.eq_dec r1 r2) as [->|Hne]; [apply Qle_refl|].
  apply Qlt_le_weak.
  pose proof (sf_valid r1 (sample_facts_unpack r1 H1)) as V1.
  pose proof (sf_valid r2 (sample_facts_unpack r2 H2)) as V2.
  apply is_uint16_range in H1, H2.
  apply to_Q_lt; try (apply valid_wf; assumption).
  replace r2 with (r1 + 1 + Z.of_nat (Z.to_nat (r2 - r1 - 1))) by lia.
  apply sval_decreasing; lia.
Qed.

Lemma convert_to_celsius_range_bounds (raw : Z) :
  is_uint16 raw = true ->
  (-30243 < F32.to_Q (convert_to_celsius raw))%Q
  /\ (F32.to_Q (convert_to_celsius raw) < 438)%Q
  /\ (is_nominal raw = true -> (-1480 < F32.to_Q (convert_to_celsius raw))%Q).
Proof.
  intros Hr. pose proof (proj1 (is_uint16_range raw) Hr) as Hrange.
  assert (H0 : (F32.to_Q (convert_to_celsius raw) <= F32.to_Q (convert_to_celsius 0))%Q)
    by (apply convert_antitone; [reflexivity | assumption | lia]).
  assert (H1 : (F32.to_Q (convert_to_celsius 65535) <= F32.to_Q (convert_to_celsius raw))%Q)
    by (apply convert_antitone; [assumption | reflexivity | lia]).
  split; [|split].
  - eapply Qlt_le_trans; [|exact H1]. vm_compute. reflexivity.
  - eapply Qle_lt_trans; [exact H0|]. vm_compute. reflexivity.
  - intros Hn. apply is_nominal_range in Hn.
    eapply Qlt_le_trans; [|apply (convert_antitone raw 4095); [assumption | reflexivity | lia]].
    vm_compute. reflexivity.
Qed.

Lemma Qabs_triangle_diff (a b x y : Q) :
  (Qabs ((a - b) - (x - y)) <= Qabs (a - x) + Qabs (b - y))%Q.
Proof.
  setoid_replace ((a - b) - (x - y))%Q with ((a - x) + - (b - y))%Q by ring.
  eapply Qle_trans; [apply Qabs_triangle|]. rewrite Qabs_opp. apply Qle_refl.
Qed.

Lemma mean_exact_bounds (lo hi : Q) (buf : list Z) :
  List.length buf = 100%nat ->
  (forall y, In y (temperatures buf) -> lo <= y <= hi)%Q ->
  (lo <= mean_exact buf <= hi)%Q.
Proof.
  intros Hlen Hall. unfold mean_exact. rewrite Hlen. change (inject_Z (Z.of_nat 100)) with 100%Q.
  destruct (sumQ_bounds lo hi (temperatures buf) Hall) as [H1 H2].
  rewrite temperatures_length, Hlen in H1, H2.
  change (inject_Z (Z.of_nat 100)) with 100%Q in H1, H2.
  split.
  - apply Qle_shift_div_l; [reflexivity|]. rewrite Qmult_comm. exact H1.
  - apply Qle_shift_div_r; [reflexivity|]. rewrite Qmult_comm. exact H2.
Qed.

(** ** The configuration calls, cycle by cycle *)

Lemma filter_implied {A} (f g : A -> bool) (l : list A) :
  (forall x, f x = true -> g x = true) -> filter f (filter g l) = filter f l.
Proof.
  intros H. induction l as [|x l IH]; [reflexivity|]. cbn [filter].
  destruct (g x) eqn:Hg; cbn [filter].
  - rewrite IH. reflexivity.
  - destruct (f x) eqn:Hf; [rewrite (H x Hf) in Hg; discriminate | exact IH].
Qed.

Lemma filter_concat_repeat {A} (f : A -> bool) (c : list A) (n : nat) :
  filter f (concat (repeat c n)) = concat (repeat (filter f c) n).
Proof.
  induction n as [|n IH]; [reflexivity|]. cbn [repeat concat].
  rewrite filter_app, IH. reflexivity.
Qed.

Lemma configuration_of_cycle chan c :
  filter is_configuration (cycle_events chan c) = configuration_events chan c.
Proof. reflexivity. Qed.

Lemma configuration_of_prefix chan c l :
  filter is_configuration (firstn (progress l) (cycle_events chan c))
  = firstn (configured l) (configuration_events chan c).
Proof. destruct l; reflexivity. Qed.

Lemma drain_of_prefix chan c l :
  List.length (filter is_drain (firstn (configured l) (configuration_events chan c))) = begun l.
Proof. destruct l; reflexivity. Qed.

Lemma configuration_history chan dflt len st :
  invariant chan dflt len st ->
  exists n,
    filter is_configuration (history st)
    = concat (repeat (configuration_events chan (main_cfg dflt)) n)
      ++ firstn (configured (pc st)) (configuration_events chan (main_cfg dflt))
    /\ samplings st = (n + begun (pc st))%nat.
Proof.
  intros I. destruct (inv_order _ _ _ _ I) as [n Hn]. exists n.
  assert (Hc : filter is_configuration (history st)
               = concat (repeat (configuration_events chan (main_cfg dflt)) n)
                 ++ firstn (configured (pc st)) (configuration_events chan (main_cfg dflt))).
  { rewrite <- (filter_implied is_configuration is_acquisition)
      by (intros e He; destruct e; try discriminate He; reflexivity).
    rewrite Hn, filter_app, filter_concat_repeat, configuration_of_cycle,
      configuration_of_prefix. reflexivity. }
  split; [exact Hc|].
  unfold samplings. rewrite <- (rev_involutive (trace st)) at 1.
  fold (history st). rewrite filter_rev, length_rev.
  rewrite <- (filter_implied is_drain is_configuration)
    by (intros e He; destruct e; try discriminate He; reflexivity).
  rewrite Hc, filter_app, filter_concat_repeat, length_app, drain_of_prefix.
  f_equal. clear. induction n as [|n IH]; [reflexivity|].
  cbn [repeat concat]. rewrite length_app, IH. reflexivity.
Qed.

(** ** Firings at any point of the cycle *)

Lemma samplings_step a st : (samplings st <= samplings (step a st))%nat.
Proof.
  destruct a as [| |v]; cbn [step].
  - destruct st as [tf buf l ch c avg ta ar dc dr di tr].
    unfold main_step; simpl_state.
    destruct l; try destruct tf; try destruct (dr =? 0);
      rewrite ?samplings_goto; unfold samplings; simpl_state; lia.
  - unfold tick. destruct (timer_active st); [|lia].
    destruct st; unfold samplings; simpl_state; lia.
  - unfold dma_transfer. destruct (adc_running st && (0 <? dma_remaining st)); [|lia].
    rewrite samplings_goto. destruct st; unfold samplings; simpl_state. lia.
Qed.

Lemma timer_active_step a st : timer_active st = true -> timer_active (step a st) = true.
Proof.
  intros Ha. destruct a as [| |v]; cbn [step].
  - destruct st as [tf buf l ch c avg ta ar dc dr di tr].
    unfold main_step; simpl_state.
    destruct l; try destruct tf; try destruct (dr =? 0); simpl_state; assumption.
  - apply tick_stays_active, Ha.
  - unfold dma_transfer. destruct (adc_running st && (0 <? dma_remaining st)); [|assumption].
    destruct st; simpl_state; assumption.
Qed.

Lemma tick_raises_flag st :
  timer_active st = true -> timer_fired (tick st) = true /\ pc (tick st) = pc st.
Proof. intros Ha. rewrite (tick_active st Ha). destruct st; split; reflexivity. Qed.

Lemma flag_pending_step base a st :
  (base <= samplings st)%nat -> flag_pending base st -> flag_pending base (step a st).
Proof.
  intros Hb H. pose proof (samplings_step a st) as Hm.
  destruct H as [H | H]; [left; lia|].
  destruct a as [| |v]; cbn [step] in *.
  - destruct st as [tf buf l ch c avg ta ar dc dr di tr]. unfold flag_pending.
    unfold main_step in *; simpl_state.
    destruct H as [H | H]; subst.
    + destruct l; try destruct (dr =? 0); simpl_state; auto.
    + left. rewrite samplings_goto. cbn [filter is_drain List.length].
      unfold samplings in *; simpl_state. lia.
  - unfold tick. destruct (timer_active st); [|right; exact H].
    right. destruct st; simpl_state. destruct H as [H | H]; auto.
  - unfold dma_transfer. destruct (adc_running st && (0 <? dma_remaining st)); [|right; exact H].
    right. destruct st; simpl_state. exact H.
Qed.

Lemma flag_pending_run base sched : forall st,
  timer_active st = true -> (base <= samplings st)%nat ->
  flag_pending base st \/ (1 <= ticks sched)%nat ->
  flag_pending base (run sched st).
Proof.
  induction sched as [|a sched IH]; intros st Ha Hb H.
  - destruct H as [H | H]; [exact H | cbn in H; lia].
  - change (run (a :: sched) st) with (run sched (step a st)).
    apply IH.
    + apply timer_active_step, Ha.
    + pose proof (samplings_step a st). lia.
    + destruct H as [H | H]; [left; apply flag_pending_step; assumption|].
      destruct a as [| |v].
      * right. exact H.
      * left. right. left. apply (tick_raises_flag st Ha).
      * right. exact H.
Qed.

Lemma observed_sampling st sched :
  pc st = L_wait -> timer_fired st = true -> tick_free sched = true ->
  samplings (run ([A_main; A_main; A_main] ++ sched) st) = S (samplings st).
Proof.
  intros Hpc Hf Hfree. rewrite run_app.
  destruct st as [tf buf l ch c avg ta ar dc dr di tr]; simpl_state. subst l tf.
  rewrite quiet_run; [ | assumption | ].
  - unfold samplings. cbn. reflexivity.
  - unfold quiet. cbn. repeat split; discriminate.
Qed.

Lemma dma_transfer_keeps_flag v st : timer_fired (dma_transfer v st) = timer_fired st.
Proof.
  unfold dma_transfer. destruct (adc_running st && (0 <? dma_remaining st)); [|reflexivity].
  destruct st; reflexivity.
Qed.

(** ** The format of the printed line *)

(** The format of line 140 has 29 bytes and ends in a line feed. *)
Lemma printf_format_bytes :
  String.length printf_format = 29%nat /\ String.get 28 printf_format = Some "010"%char.
Proof. split; reflexivity. Qed.

(** * Properties of the program *)

Lemma wf_is_finite (x : F32.float) : F32.wf x = true -> F32.is_finite x = true.
Proof. destruct x; intros H; try discriminate H; reflexivity. Qed.

(** ** The conversion function *)

(** C1. For every 16-bit raw input, [convert_to_celsius] is the formula
    [27.0 - ((raw * (3.3 / 4096)) - 0.706) / 0.001721] evaluated in
    binary32; its value is within 1/400 of the formula over the
    rationals (within 1/5000 on the 12-bit range); and at [raw = 0] it
    is [27.0 - (0 - 0.706) / 0.001721]. *)
Theorem convert_to_celsius_formula (raw : Z) :
  is_uint16 raw = true ->
  convert_to_celsius raw = convert_formula raw
  /\ (Qabs (F32.to_Q (convert_to_celsius raw) - convert_exact raw) <= 1 # 400)%Q
  /\ (is_nominal raw = true ->
      (Qabs (F32.to_Q (convert_to_celsius raw) - convert_exact raw) <= 1 # 5000)%Q)
  /\ convert_to_celsius 0
     = F32.sub (F32.of_decimal 270 10)
         (F32.div (F32.sub F32.zero (F32.of_decimal 706 1000)) (F32.of_decimal 1721 1000000)).
Proof.
  intros Hr. pose proof (sample_facts_unpack raw Hr) as F.
  split; [reflexivity|]. split; [exact (sf_close raw F)|]. split.
  - intros Hn. apply is_nominal_range in Hn. apply (sf_nominal raw F). lia.
  - vm_compute. reflexivity.
Qed.

Lemma convert_to_celsius_formula_at_825 :
  is_uint16 825 = true
  /\ convert_to_celsius 825 = convert_formula 825
  /\ (Qabs (F32.to_Q (convert_to_celsius 825) - convert_exact 825) <= 1 # 400)%Q.
Proof.
  split; [reflexivity|].
  destruct (convert_to_celsius_formula 825 eq_refl) as (H1 & H2 & _).
  split; assumption.
Defined.

(** C6. [convert_to_celsius] is strictly decreasing over the 16-bit
    inputs, for the comparison of binary32 and for the numbers
    denoted. *)
Theorem convert_to_celsius_decreasing (r1 r2 : Z) :
  is_uint16 r1 = true -> is_uint16 r2 = true -> r1 < r2 ->
  F32.ltb (convert_to_celsius r2) (convert_to_celsius r1) = true
  /\ (F32.to_Q (convert_to_celsius r2) < F32.to_Q (convert_to_celsius r1))%Q.
Proof.
  intros H1 H2 Hlt.
  pose proof (sf_valid r1 (sample_facts_unpack r1 H1)) as V1.
  pose proof (sf_valid r2 (sample_facts_unpack r2 H2)) as V2.
  apply is_uint16_range in H1, H2.
  assert (Hs : F32.sval (convert_to_celsius r2) < F32.sval (convert_to_celsius r1)).
  { replace r2 with (r1 + 1 + Z.of_nat (Z.to_nat (r2 - r1 - 1))) by lia.
    apply sval_decreasing; lia. }
  split.
  - apply ltb_sval; assumption.
  - apply to_Q_lt; try apply valid_wf; assumption.
Qed.

Lemma convert_to_celsius_decreasing_at_824_825 :
  is_uint16 824 = true /\ is_uint16 825 = true /\ 824 < 825
  /\ F32.ltb (convert_to_celsius 825) (convert_to_celsius 824) = true.
Proof.
  repeat (split; [reflexivity|]).
  apply (convert_to_celsius_decreasing 824 825); reflexivity.
Defined.

(** C8. [convert_to_celsius] is a function, so total, deterministic
    and without effect; on every 16-bit input, inside the 12-bit range
    or not, its result is a finite binary32 number in canonical form,
    of magnitude at most 30243. *)
Theorem convert_to_celsius_total (raw : Z) :
  is_uint16 raw = true ->
  F32.is_finite (convert_to_celsius raw) = true
  /\ valid_binary F32.prec F32.emax (convert_to_celsius raw) = true
  /\ (Qabs (F32.to_Q (convert_to_celsius raw)) <= 30243)%Q.
Proof.
  intros Hr. pose proof (sample_facts_unpack raw Hr) as F.
  pose proof (sf_valid raw F) as V. pose proof (sf_bound raw F) as B.
  pose proof (valid_wf _ V) as W.
  unfold F32.valid in V. apply andb_prop in V. destruct V as [V1 V2].
  repeat split; try assumption.
  rewrite (to_Q_sval _ W). unfold Qabs, Qle. cbn [Qnum Qden].
  unfold bound16 in B. change (Z.pos F32.unit149) with (2 ^ 149). lia.
Qed.

Lemma convert_to_celsius_total_at_65535 :
  is_uint16 65535 = true /\ F32.is_finite (convert_to_celsius 65535) = true.
Proof.
  split; [reflexivity|]. apply (convert_to_celsius_total 65535). reflexivity.
Defined.

(** ** The average *)

(** C2, as the code has it.  The average is the binary32 sum of the
    converted samples, taken from the left, divided in binary32 by
    their number; it is finite and within 1/8 + 1/1024 of the mean of
    the converted samples (1/128 + 1/16384 when the samples are in the
    12-bit range).  So it is within that distance of
    [convert_to_celsius r] when all samples are [r], and of the half
    sum of the two conversions when two values alternate. *)
Theorem average_temperature_rounded_mean (buf : list Z) :
  valid_buffer buf = true ->
  average_temperature buf = average_spec buf
  /\ F32.is_finite (average_temperature buf) = true
  /\ (Qabs (F32.to_Q (average_temperature buf) - mean_exact buf) <= 129 # 1024)%Q
  /\ (nominal_buffer buf = true ->
      (Qabs (F32.to_Q (average_temperature buf) - mean_exact buf) <= 129 # 16384)%Q)
  /\ (forall r, buf = repeat r 100 ->
      (Qabs (F32.to_Q (average_temperature buf) - F32.to_Q (convert_to_celsius r))
       <= 129 # 1024)%Q)
  /\ (forall r1 r2, buf = alternate r1 r2 ->
      (Qabs (F32.to_Q (average_temperature buf)
             - (F32.to_Q (convert_to_celsius r1) + F32.to_Q (convert_to_celsius r2)) / 2)
       <= 129 # 1024)%Q).
Proof.
  intros Hb. destruct (average_close16 buf Hb) as [Hwf Herr].
  pose proof (proj1 (valid_buffer_spec buf) Hb) as [Hlen _].
  split; [apply average_temperature_spec, Hlen|].
  split; [apply wf_is_finite, Hwf|].
  split; [exact Herr|]. split; [|split].
  - intros Hn. apply (average_close12 buf Hn).
  - intros r ->. rewrite <- (mean_exact_repeat r). exact Herr.
  - intros r1 r2 ->. rewrite <- (mean_exact_alternate r1 r2). exact Herr.
Qed.

Lemma average_temperature_rounded_mean_at_2048 :
  valid_buffer (repeat 2048%Z 100) = true
  /\ (Qabs (F32.to_Q (average_temperature (repeat 2048%Z 100)) - F32.to_Q (convert_to_celsius 2048))
      <= 129 # 1024)%Q.
Proof.
  split; [reflexivity|].
  destruct (average_temperature_rounded_mean (repeat 2048%Z 100) eq_refl) as (_ & _ & _ & _ & H & _).
  apply H. reflexivity.
Defined.

(** C2 as stated fails: with one hundred samples 2048 the average is
    not the conversion of 2048. *)
Lemma average_of_equal_samples_differs :
  ~ (F32.to_Q (average_temperature (repeat 2048%Z 100)) == F32.to_Q (convert_to_celsius 2048))%Q.
Proof. vm_compute. intros H. discriminate H. Qed.

(** C7, with the values the code yields.  For one hundred samples
    2048 the voltage is [1.65f] and the average is within 1/1000 of
    the conversion of 2048 and within 1/100 of -521.52; for [raw =
    825] the voltage is within 1/10000 of 0.6647 and the temperature
    within 1/100 of 51.01. *)
Theorem scenario_values :
  voltage 2048 = F32.of_decimal 165 100
  /\ (Qabs (F32.to_Q (average_temperature (repeat 2048%Z 100)) - F32.to_Q (convert_to_celsius 2048))
      <= 1 # 1000)%Q
  /\ (Qabs (F32.to_Q (average_temperature (repeat 2048%Z 100)) - (-52152 # 100)) <= 1 # 100)%Q
  /\ (Qabs (F32.to_Q (voltage 825) - (6647 # 10000)) <= 1 # 10000)%Q
  /\ (Qabs (F32.to_Q (convert_to_celsius 825) - (5101 # 100)) <= 1 # 100)%Q.
Proof.
  split; [vm_compute; reflexivity|].
  repeat split; apply Qle_bool_iff; vm_compute; reflexivity.
Qed.

(** The values C7 states are off: the average is more than 1 away from
    -522.9 and the temperature at 825 more than 23 away from 27.9. *)
Lemma scenario_values_as_stated_off :
  (1 < Qabs (F32.to_Q (average_temperature (repeat 2048%Z 100)) - (-5229 # 10)))%Q
  /\ (23 < Qabs (F32.to_Q (convert_to_celsius 825) - (279 # 10)))%Q.
Proof. split; vm_compute; reflexivity. Qed.

(** C10, as the code has it.  The average lies between the minimum
    and the maximum of the converted samples widened by 1/8 + 1/1024
    (by 1/128 + 1/16384 on the 12-bit range), and no statement of
    [main], the averaging loop included, changes [adc_buffer]. *)
Theorem average_within_sample_range (buf : list Z) :
  valid_buffer buf = true ->
  (Qlist_min (temperatures buf) - (129 # 1024) <= F32.to_Q (average_temperature buf)
   /\ F32.to_Q (average_temperature buf) <= Qlist_max (temperatures buf) + (129 # 1024))%Q
  /\ (nominal_buffer buf = true ->
      (Qlist_min (temperatures buf) - (129 # 16384) <= F32.to_Q (average_temperature buf)
       /\ F32.to_Q (average_temperature buf) <= Qlist_max (temperatures buf) + (129 # 16384))%Q)
  /\ (forall st, adc_buffer (main_step st) = adc_buffer st).
Proof.
  intros Hb. pose proof (proj1 (valid_buffer_spec buf) Hb) as [Hlen _].
  pose proof (mean_exact_between buf Hlen) as Hm.
  split; [|split].
  - apply (Qabs_diff_bounds _ (mean_exact buf)); [apply (average_close16 buf Hb) | exact Hm].
  - intros Hn. apply (Qabs_diff_bounds _ (mean_exact buf)); [apply (average_close12 buf Hn) | exact Hm].
  - apply main_step_buffer.
Qed.

Lemma average_within_sample_range_at_825 :
  valid_buffer (repeat 825%Z 100) = true
  /\ (F32.to_Q (average_temperature (repeat 825%Z 100))
      <= Qlist_max (temperatures (repeat 825%Z 100)) + (129 # 1024))%Q.
Proof.
  split; [reflexivity|].
  destruct (average_within_sample_range (repeat 825%Z 100) eq_refl) as [[_ H] _]. exact H.
Defined.

(** C10 as stated fails: with one hundred samples 825 the average is
    above the maximum of the converted samples. *)
Lemma average_above_maximum :
  (Qlist_max (temperatures (repeat 825%Z 100)) < F32.to_Q (average_temperature (repeat 825%Z 100)))%Q.
Proof. vm_compute. reflexivity. Qed.

Lemma idle_outside_wait chan dflt len st :
  invariant chan dflt len st -> pc st <> L_dma_wait -> dma_remaining st = 0.
Proof.
  intros I Hpc. pose proof (inv_dma_nonneg _ _ _ _ I) as H0.
  destruct (Z.eq_dec (dma_remaining st) 0) as [|Hne]; [assumption|].
  elim Hpc. apply (inv_dma_busy _ _ _ _ I). lia.
Qed.

Lemma step_buffer_outside_wait chan dflt len st a :
  invariant chan dflt len st -> pc st <> L_dma_wait ->
  adc_buffer (step a st) = adc_buffer st.
Proof.
  intros I Hpc. destruct a as [| |v]; cbn [step].
  - apply main_step_buffer.
  - unfold tick. destruct (timer_active st); [|reflexivity]. destruct st; reflexivity.
  - unfold dma_transfer. rewrite (idle_outside_wait _ _ _ _ I Hpc).
    rewrite andb_false_r. reflexivity.
Qed.

Lemma main_step_flag_elsewhere st :
  pc st <> L_clear -> timer_fired (main_step st) = timer_fired st.
Proof.
  destruct st as [tf buf l ch c avg ta ar dc dr di tr]. unfold main_step; simpl_state.
  intros Hpc. destruct l; try destruct tf; try destruct (dr =? 0); simpl_state; congruence.
Qed.

(** ** The acquisition cycle *)

(** C3. Whatever the interleaving of timer firings and DMA transfers
    with the statements of [main], the calls of the acquisition and
    the reads of [adc_buffer] occur in the order of [cycle_events],
    cycle after cycle: drain, stop, FIFO set-up, start, DMA
    configuration, return of the blocking wait, stop, and then the
    hundred reads.  Outside the blocking wait the DMA has no transfer
    left and no action changes [adc_buffer]. *)
Theorem acquisition_order (chan : Z) (dflt : dma_channel_config) (buf0 : list Z)
    (sched : list action) :
  let st := run sched (main_init chan dflt buf0) in
  (exists n k,
      filter is_acquisition (history st)
      = concat (repeat (cycle_events chan (main_cfg dflt)) n)
        ++ firstn k (cycle_events chan (main_cfg dflt)))
  /\ (pc st <> L_dma_wait -> dma_remaining st = 0)
  /\ (pc st <> L_dma_wait -> forall a, adc_buffer (step a st) = adc_buffer st).
Proof.
  intros st. pose proof (invariant_run chan dflt buf0 sched) as I. fold st in I.
  split; [|split].
  - destruct (inv_order _ _ _ _ I) as [n Hn]. exists n, (progress (pc st)). exact Hn.
  - apply (idle_outside_wait _ _ _ _ I).
  - intros Hpc a. apply (step_buffer_outside_wait _ _ _ _ a I Hpc).
Qed.

(** C5. The configuration built by [main] has 16-bit transfers, a
    fixed read address, an incrementing write address and the ADC as
    pacing request, whatever the default configuration.  Every cycle
    makes, after its drain and in this order, one FIFO set-up
    [(true, true, 1, false, false)] and one DMA configuration for one
    hundred transfers from the ADC FIFO register to [adc_buffer],
    started at once: the drains, FIFO set-ups and DMA configurations
    of any reachable history are these three calls, repeated once per
    cycle begun, the current cycle having made those before the
    control point of [main]; and the program makes no FIFO set-up and
    no DMA configuration with other arguments.  The burst so armed
    stores the low 16 bits of the next hundred samples in
    [adc_buffer], in order, and is then complete. *)
Theorem cycle_configuration (chan : Z) (dflt : dma_channel_config) (buf0 : list Z)
    (sched : list action) (samples : list Z) :
  List.length buf0 = 100%nat -> List.length samples = 100%nat ->
  let st := run sched (main_init chan dflt buf0) in
  let c := main_cfg dflt in
  (transfer_data_size c = DMA_SIZE_16 /\ read_increment c = false
   /\ write_increment c = true /\ dreq c = DREQ_ADC)
  /\ Forall (event_ok chan c) (history st)
  /\ (exists n,
        filter is_configuration (history st)
        = concat (repeat (configuration_events chan c) n)
          ++ firstn (configured (pc st)) (configuration_events chan c)
        /\ samplings st = (n + begun (pc st))%nat)
  /\ (pc st = L_dma_configure ->
      let st' := run (A_main :: map A_dma samples) st in
      adc_buffer st' = map mask16 samples /\ dma_remaining st' = 0 /\ pc st' = L_dma_wait).
Proof.
  intros Hb Hs st c. pose proof (invariant_run chan dflt buf0 sched) as I. fold st in I.
  rewrite Hb in I.
  split; [repeat split|split; [|split]].
  - unfold history. apply Forall_rev. apply (inv_events _ _ _ _ I).
  - apply (configuration_history chan dflt 100 st I).
  - intros Hpc. apply (configure_then_burst chan dflt st samples I Hpc Hs).
Qed.

Lemma cycle_configuration_first_cycle :
  List.length (repeat 0 100) = 100%nat /\ List.length (repeat 70000 100) = 100%nat
  /\ adc_buffer (run (A_main :: map A_dma (repeat 70000 100))
                   (run (A_tick :: repeat A_main 6)
                      (main_init 0 some_default_config (repeat 0 100))))
     = map mask16 (repeat 70000 100).
Proof.
  split; [reflexivity|]. split; [reflexivity|].
  destruct (cycle_configuration 0 some_default_config (repeat 0 100)
              (A_tick :: repeat A_main 6) (repeat 70000 100) eq_refl eq_refl)
    as (_ & _ & _ & H).
  apply H. reflexivity.
Defined.

(** ** The trigger flag and the timer callback *)

(** C4. In every state the callback raises the flag, and a firing of
    the armed timer raises it wherever [main] is, without moving
    [main]; [main] never raises the flag and lowers it only at line
    108; the DMA does not touch it; any number of firings in a row
    leaves the state one firing leaves.  And when the timer fires once
    or more, at any points of any interleaving with [main] and the DMA
    (while [main] waits or while it still processes a cycle), before
    [main] has observed the flag, so that [main] comes to wait with no
    cycle begun since, then the flag is up and [main] begins exactly
    one cycle, however long it then runs without a further firing. *)
Theorem trigger_flag_coalesces (st : state) (sched1 sched2 : list action) :
  timer_active st = true ->
  (1 <= ticks sched1)%nat ->
  pc (run sched1 st) = L_wait -> samplings (run sched1 st) = samplings st ->
  tick_free sched2 = true ->
  (forall st', timer_fired (snd (alarm_callback st')) = true)
  /\ (forall st', timer_active st' = true ->
                  timer_fired (tick st') = true /\ pc (tick st') = pc st')
  /\ (forall st', timer_fired (main_step st') = true -> timer_fired st' = true)
  /\ (forall st', pc st' <> L_clear -> timer_fired (main_step st') = timer_fired st')
  /\ (forall st' v, timer_fired (dma_transfer v st') = timer_fired st')
  /\ (forall st' n, timer_active st' = true -> (1 <= n)%nat ->
                    run (repeat A_tick n) st' = tick st')
  /\ timer_fired (run sched1 st) = true
  /\ samplings (run (sched1 ++ [A_main; A_main; A_main] ++ sched2) st) = S (samplings st).
Proof.
  intros Ha Hn Hpc Hs Hfree.
  assert (Hf : timer_fired (run sched1 st) = true).
  { destruct (flag_pending_run (samplings st) sched1 st Ha (le_n _) (or_intror Hn))
      as [H | [H | H]]; [lia | exact H | congruence]. }
  split; [reflexivity|]. split; [exact tick_raises_flag|].
  split; [exact main_step_keeps_flag|]. split; [exact main_step_flag_elsewhere|].
  split; [intros st' v; apply dma_transfer_keeps_flag|].
  split; [intros st' n Ha' Hn'; apply ticks_coalesce; assumption|].
  split; [exact Hf|].
  rewrite run_app, <- Hs. apply observed_sampling; assumption.
Qed.

Lemma trigger_flag_coalesces_two_firings :
  (1 <= ticks ([A_tick] ++ map A_dma (repeat 876%Z 100) ++ [A_tick] ++ repeat A_main 5))%nat
  /\ pc (run ([A_tick] ++ map A_dma (repeat 876 100) ++ [A_tick] ++ repeat A_main 5)
           (run (A_tick :: repeat A_main 7)
              (main_init 0 some_default_config (repeat 0 100)))) = L_wait
  /\ samplings (run (([A_tick] ++ map A_dma (repeat 876 100) ++ [A_tick] ++ repeat A_main 5)
                     ++ [A_main; A_main; A_main] ++ repeat A_main 4)
                  (run (A_tick :: repeat A_main 7)
                     (main_init 0 some_default_config (repeat 0 100))))
     = 2%nat.
Proof.
  split; [vm_compute; lia|]. split; [reflexivity|].
  apply (trigger_flag_coalesces
           (run (A_tick :: repeat A_main 7) (main_init 0 some_default_config (repeat 0 100)))
           ([A_tick] ++ map A_dma (repeat 876 100) ++ [A_tick] ++ repeat A_main 5)
           (repeat A_main 4));
    reflexivity || (vm_compute; lia).
Defined.


(** * Further properties of the program *)

(** ** The range and the resolution of the conversion *)

(** X1. On every 16-bit input the converted temperature lies strictly
    between -30243 and 438 degrees; on the 12-bit range of the ADC it
    is above -1480 degrees; and it is positive exactly for the raw
    values up to 933. *)
Theorem convert_to_celsius_range (raw : Z) :
  is_uint16 raw = true ->
  (-30243 < F32.to_Q (convert_to_celsius raw) /\ F32.to_Q (convert_to_celsius raw) < 438)%Q
  /\ (is_nominal raw = true -> (-1480 < F32.to_Q (convert_to_celsius raw))%Q)
  /\ ((0 < F32.to_Q (convert_to_celsius raw))%Q <-> raw <= 933).
Proof.
  intros Hr. pose proof (proj1 (is_uint16_range raw) Hr) as Hrange.
  destruct (convert_to_celsius_range_bounds raw Hr) as (Hlo & Hhi & Hnom).
  split; [split; assumption|]. split; [exact Hnom|].
  split.
  - intros Hpos. destruct (Z_le_gt_dec raw 933) as [|Hgt]; [assumption|exfalso].
    assert (H934 : (F32.to_Q (convert_to_celsius raw) <= F32.to_Q (convert_to_celsius 934))%Q)
      by (apply convert_antitone; [reflexivity | assumption | lia]).
    assert (Hneg : (F32.to_Q (convert_to_celsius 934) < 0)%Q) by (vm_compute; reflexivity).
    apply (Qlt_irrefl 0). eapply Qlt_le_trans; [exact Hpos|].
    eapply Qle_trans; [exact H934 | apply Qlt_le_weak, Hneg].
  - intros Hle. eapply Qlt_le_trans;
      [|apply (convert_antitone raw 933); [assumption | reflexivity | lia]].
    vm_compute. reflexivity.
Qed.

Lemma convert_to_celsius_range_at_933 :
  is_uint16 933 = true /\ (0 < F32.to_Q (convert_to_celsius 933))%Q.
Proof.
  split; [reflexivity|].
  apply (convert_to_celsius_range 933 eq_refl). lia.
Defined.

(** X2. One more count of the ADC lowers the converted temperature by
    [3.3 / 4096 / 0.001721 = 103125 / 220288] degree (about 0.468), up
    to 1/200 degree of rounding, for every pair of consecutive 16-bit
    inputs. *)
Theorem convert_to_celsius_step (raw : Z) :
  is_uint16 raw = true -> is_uint16 (raw + 1) = true ->
  (Qabs ((F32.to_Q (convert_to_celsius raw) - F32.to_Q (convert_to_celsius (raw + 1)))
         - (103125 # 220288)) <= 1 # 200)%Q.
Proof.
  intros H1 H2.
  pose proof (sf_close raw (sample_facts_unpack raw H1)) as C1.
  pose proof (sf_close (raw + 1) (sample_facts_unpack (raw + 1) H2)) as C2.
  assert (He : (convert_exact raw - convert_exact (raw + 1) == 103125 # 220288)%Q).
  { unfold convert_exact. rewrite inject_Z_plus. field. }
  rewrite <- He.
  eapply Qle_trans; [apply Qabs_triangle_diff|].
  setoid_replace (1 # 200)%Q with ((1 # 400) + (1 # 400))%Q by reflexivity.
  apply Qplus_le_compat; assumption.
Qed.

Lemma convert_to_celsius_step_at_2048 :
  is_uint16 2048 = true /\ is_uint16 (2048 + 1) = true
  /\ (Qabs ((F32.to_Q (convert_to_celsius 2048) - F32.to_Q (convert_to_celsius (2048 + 1)))
            - (103125 # 220288)) <= 1 # 200)%Q.
Proof.
  split; [reflexivity|]. split; [reflexivity|].
  apply (convert_to_celsius_step 2048); reflexivity.
Defined.

(** ** The range of the average *)

(** X3. For every content of the 100-entry sample buffer the average
    of lines 133-137 lies strictly between -30244 and 439 degrees, and
    above -1481 degrees when all entries are 12-bit values. *)
Theorem average_temperature_range (buf : list Z) :
  valid_buffer buf = true ->
  (-30244 < F32.to_Q (average_temperature buf) /\ F32.to_Q (average_temperature buf) < 439)%Q
  /\ (nominal_buffer buf = true -> (-1481 < F32.to_Q (average_temperature buf))%Q).
Proof.
  intros Hb. pose proof (proj1 (valid_buffer_spec buf) Hb) as [Hlen Hall].
  assert (H16 : (-30243 <= mean_exact buf <= 438)%Q).
  { apply mean_exact_bounds; [assumption|]. intros y Hy. unfold temperatures in Hy.
    apply in_map_iff in Hy. destruct Hy as (r & <- & Hr).
    destruct (convert_to_celsius_range_bounds r (Hall r Hr)) as (Hlo & Hhi & _).
    split; apply Qlt_le_weak; assumption. }
  split.
  - destruct (Qabs_diff_bounds _ _ _ _ _ (proj2 (average_close16 buf Hb)) H16) as [H1 H2].
    split.
    + eapply Qlt_le_trans; [|exact H1]. reflexivity.
    + eapply Qle_lt_trans; [exact H2|]. reflexivity.
  - intros Hn. pose proof (proj1 (nominal_buffer_spec buf) Hn) as [_ Hnom].
    assert (H12 : (-1480 <= mean_exact buf <= 438)%Q).
    { apply mean_exact_bounds; [assumption|]. intros y Hy. unfold temperatures in Hy.
      apply in_map_iff in Hy. destruct Hy as (r & <- & Hr).
      destruct (convert_to_celsius_range_bounds r (Hall r Hr)) as (Hlo & Hhi & Hnm).
      split; apply Qlt_le_weak; [apply Hnm, Hnom, Hr | assumption]. }
    destruct (Qabs_diff_bounds _ _ _ _ _ (proj2 (average_close12 buf Hn)) H12) as [H1 _].
    eapply Qlt_le_trans; [|exact H1]. reflexivity.
Qed.

Lemma average_temperature_range_at_825 :
  valid_buffer (repeat 825%Z 100) = true
  /\ (-30244 < F32.to_Q (average_temperature (repeat 825%Z 100)))%Q.
Proof.
  split; [reflexivity|].
  destruct (average_temperature_range (repeat 825%Z 100) eq_refl) as [[H _] _]. exact H.
Defined.

(** ** The buffer and the DMA *)

(** X4. Whatever the interleaving of [main], the timer and the ADC,
    every store of the DMA lands at an index 0..99 of [adc_buffer] and
    stores a 16-bit value, [adc_buffer] keeps 100 entries of 16 bits,
    at most 100 transfers are ever left, and while some are left the
    write index is the number of transfers done. *)
Theorem dma_stores_in_bounds (chan : Z) (dflt : dma_channel_config) (buf0 : list Z)
    (sched : list action) :
  valid_buffer buf0 = true ->
  let st := run sched (main_init chan dflt buf0) in
  Forall dma_write_ok (history st)
  /\ valid_buffer (adc_buffer st) = true
  /\ 0 <= dma_remaining st <= 100
  /\ (0 < dma_remaining st -> dma_write_index st = 100 - dma_remaining st).
Proof.
  intros Hb st. pose proof (output_invariant_run chan dflt buf0 sched Hb) as O.
  pose proof (invariant_run chan dflt buf0 sched) as I. fold st in O, I.
  split; [|split; [|split]].
  - unfold history. apply Forall_rev, (oi_writes _ O).
  - apply (oi_valid _ O).
  - split; [apply (inv_dma_nonneg _ _ _ _ I) | apply (oi_remaining _ O)].
  - intros Hr. apply (inv_index _ _ _ _ I), (inv_dma_busy _ _ _ _ I), Hr.
Qed.

Lemma dma_stores_in_bounds_mid_burst :
  valid_buffer (repeat 0 100) = true
  /\ Forall dma_write_ok
       (history (run (A_tick :: repeat A_main 7 ++ map A_dma (repeat 70000 40))
                   (main_init 0 some_default_config (repeat 0 100))))
  /\ valid_buffer
       (adc_buffer (run (A_tick :: repeat A_main 7 ++ map A_dma (repeat 70000 40))
                      (main_init 0 some_default_config (repeat 0 100)))) = true.
Proof.
  split; [reflexivity|].
  destruct (dma_stores_in_bounds 0 some_default_config (repeat 0 100)
              (A_tick :: repeat A_main 7 ++ map A_dma (repeat 70000 40)) eq_refl)
    as (H1 & H2 & _).
  split; [exact H1 | exact H2].
Defined.

(** X5. In every reachable state the ADC is free-running exactly when
    [main] is between its [adc_run(true)] of line 116 and its
    [adc_run(false)] of line 130: about to configure the DMA, waiting
    for the burst, or about to stop the ADC. *)
Theorem adc_runs_only_during_burst (chan : Z) (dflt : dma_channel_config) (buf0 : list Z)
    (sched : list action) :
  adc_running (run sched (main_init chan dflt buf0))
  = in_burst_window (pc (run sched (main_init chan dflt buf0))).
Proof.
  unfold run. rewrite <- fold_left_rev_right.
  induction (rev sched) as [|a l IH]; cbn [fold_right].
  - reflexivity.
  - apply adc_window_step, IH.
Qed.

(** ** Cycles and firings *)

(** X6. However the firings of the timer interleave with [main] and
    the DMA, the acquisition cycles begun never outnumber the
    firings. *)
Theorem samplings_at_most_ticks (chan : Z) (dflt : dma_channel_config) (buf0 : list Z)
    (sched : list action) :
  (samplings (run sched (main_init chan dflt buf0)) <= ticks sched)%nat.
Proof.
  pose proof (credit_run sched (main_init chan dflt buf0)) as H.
  change (samplings (main_init chan dflt buf0)) with 0%nat in H.
  change (credit (main_init chan dflt buf0)) with 0%nat in H. lia.
Qed.

(** ** What is printed and drawn *)



(** ** One whole cycle *)

(** X8. From any reachable state in which [main] waits for the timer,
    one firing, seven statements of [main], 100 samples and five more
    statements bring [main] back to the wait with the flag down, the
    ADC stopped and the DMA idle; [adc_buffer] then holds the low 16
    bits of the 100 samples in order, [avg_temp] is their average, and
    the calls made are exactly: drain, stop, FIFO setup, start, DMA
    configure, the 100 stores at indices 0..99, wait, stop, the 100
    reads, the [printf] of the average and the five calls of
    [display_temperature] with it. *)
Theorem one_cycle_trace (chan : Z) (dflt : dma_channel_config) (buf0 : list Z)
    (sched : list action) (samples : list Z) :
  List.length buf0 = 100%nat -> List.length samples = 100%nat ->
  pc (run sched (main_init chan dflt buf0)) = L_wait ->
  let st := run sched (main_init chan dflt buf0) in
  let st' := run (one_cycle samples) st in
  let avg := average_temperature (map mask16 samples) in
  pc st' = L_wait /\ timer_fired st' = false /\ adc_running st' = false
  /\ dma_remaining st' = 0
  /\ adc_buffer st' = map mask16 samples /\ avg_temp st' = avg
  /\ history st'
     = history st
       ++ [ E_adc_fifo_drain; E_adc_run false; E_adc_fifo_setup true true 1 false false;
            E_adc_run true;
            E_dma_channel_configure chan (main_cfg dflt) ADDR_adc_buffer ADDR_adc_hw_fifo 100 true ]
       ++ dma_write_events 0 samples
       ++ [ E_dma_channel_wait_for_finish_blocking chan; E_adc_run false ]
       ++ read_events
       ++ E_printf printf_format avg :: display_temperature avg.
Proof.
  intros Hb Hs Hpc st st' avg.
  pose proof (invariant_run chan dflt buf0 sched) as I. fold st in I, Hpc. rewrite Hb in I.
  pose proof (inv_chan _ _ _ _ I) as Hchan. pose proof (inv_cfg _ _ _ _ I) as Hcfg.
  pose proof (inv_timer _ _ _ _ I) as Hta. pose proof (inv_len _ _ _ _ I) as Hlen.
  assert (Hst' : st' =
    goto L_wait
      ([ E_dma_channel_wait_for_finish_blocking chan; E_adc_run false ]
       ++ read_events ++ E_printf printf_format avg :: display_temperature avg)
      (set_adc_running false (set_avg_temp avg
        (goto L_dma_wait (dma_write_events 0 samples)
          (set_dma (main_cfg dflt) 0 100
            (set_adc_buffer (map mask16 samples)
              (goto L_dma_wait
                [ E_adc_fifo_drain; E_adc_run false; E_adc_fifo_setup true true 1 false false;
                  E_adc_run true;
                  E_dma_channel_configure chan (main_cfg dflt) ADDR_adc_buffer ADDR_adc_hw_fifo 100 true ]
                (set_dma (main_cfg dflt) 100 0
                   (set_adc_running true (set_timer_fired false st)))))))))).
  { subst st'. unfold one_cycle.
    change (A_tick :: repeat A_main 7 ++ map A_dma samples ++ repeat A_main 5)
      with ((A_tick :: repeat A_main 7) ++ map A_dma samples ++ repeat A_main 5).
    rewrite !run_app, (start_cycle st Hpc Hta), Hchan, Hcfg.
    rewrite (dma_burst_state samples [] (adc_buffer st)); project_state;
      try reflexivity; [ | rewrite Hs; reflexivity | rewrite Hs; exact Hlen ].
    rewrite Hs. change (0 + Z.of_nat 100) with 100. cbn [app].
    rewrite finish_cycle by reflexivity. project_state. rewrite Hchan. reflexivity. }
  rewrite Hst'. clear Hst'.
  repeat (split; [project_state; reflexivity|]).
  rewrite history_goto. unfold history. project_state.
  rewrite !rev_app_distr, !rev_involutive, <- !app_assoc. reflexivity.
Qed.

Lemma one_cycle_trace_from_reset :
  List.length (repeat 0 100) = 100%nat /\ List.length (repeat 876 100) = 100%nat
  /\ pc (run [] (main_init 0 some_default_config (repeat 0 100))) = L_wait
  /\ adc_buffer (run (one_cycle (repeat 876 100))
                   (run [] (main_init 0 some_default_config (repeat 0 100))))
     = map mask16 (repeat 876 100).
Proof.
  repeat (split; [reflexivity|]).
  apply (one_cycle_trace 0 some_default_config (repeat 0 100) [] (repeat 876 100));
    reflexivity.
Defined.
